(** * The KDL external scanner (langs/group-maple/kdl/def/grammar/scanner.c)

    A shallow embedding of the hand-written tree-sitter external scanner of
    the KDL grammar, and the properties of its nested block comments and
    hash-delimited raw strings. *)

From Stdlib Require Import ZArith List Bool Lia Arith.
Import ListNotations.
Local Open Scope Z_scope.

(** ** Data model *)

(** [enum { _EOF, MULTI_LINE_COMMENT, RAW_STRING }] *)
Inductive TokenType : Type :=
  | _EOF
  | MULTI_LINE_COMMENT
  | RAW_STRING.

(** [const bool *valid_symbols], indexed by the enumeration. *)
Definition ValidSymbols : Type := TokenType -> bool.

(** Modelled from the spec: the cursor [TSLexer] is declared in
    tree_sitter/parser.h, which is not part of the sources.  The spec gives
    it a current lookahead code point or an end-of-input sentinel, an
    operation advancing to the next code point and an end-of-file query.
    [input] is the stream of code points, [pos] counts the calls to
    [advance] made so far, and [result_symbol] is the kind the scanner
    reports.  The sentinel is the code point 0, as the scanner tests it. *)
Record TSLexer : Type := mkLexer {
  input : list Z;
  pos : nat;
  result_symbol : TokenType
}.

Definition lookahead (lexer : TSLexer) : Z := nth (pos lexer) (input lexer) 0.

Definition eof (lexer : TSLexer) : bool := (length (input lexer) <=? pos lexer)%nat.

(** [static void advance(TSLexer *lexer) { lexer->advance(lexer, false); }] *)
Definition advance (lexer : TSLexer) : TSLexer :=
  mkLexer (input lexer) (S (pos lexer)) (result_symbol lexer).

(** [lexer->result_symbol = k;] *)
Definition set_result_symbol (k : TokenType) (lexer : TSLexer) : TSLexer :=
  mkLexer (input lexer) (pos lexer) k.

(** Code points still ahead of the cursor. *)
Definition remaining (lexer : TSLexer) : nat := (length (input lexer) - pos lexer)%nat.

(** The driver addresses the stream with 32-bit offsets. *)
Definition addressable (text : list Z) : Prop := Z.of_nat (length text) < 2 ^ 32.

(** Arithmetic of the C type [unsigned]. *)
Definition u32 (z : Z) : Z := z mod 2 ^ 32.

(** Character constants of the source. *)
Definition ch_hash : Z := 35.    (* number sign *)
Definition ch_quote : Z := 34.   (* double quote *)
Definition ch_slash : Z := 47.   (* slash *)
Definition ch_star : Z := 42.    (* asterisk *)
Definition ch_cr : Z := 13.      (* carriage return *)
Definition ch_lf : Z := 10.      (* line feed *)

(** A [for (;;)] loop: the body either goes round again ([continue], or
    falling off the end of the body) or leaves the function ([return]). *)
Inductive Step (S R : Type) : Type :=
  | Continue (s : S)
  | Return (r : R).
Arguments Continue {S R} s.
Arguments Return {S R} r.

Fixpoint loop {S R : Type} (body : S -> Step S R) (fuel : nat) (s : S) : option R :=
  match fuel with
  | O => None
  | Datatypes.S fuel' =>
      match body s with
      | Continue s' => loop body fuel' s'
      | Return r => Some r
      end
  end.

(** ** The scanner *)

Definition is_newline (c : Z) : bool :=
  if c =? ch_cr then true
  else if c =? ch_lf then true
  else if c =? 0x0085 then true   (* NEL *)
  else if c =? 0x000C then true   (* FF *)
  else if c =? 0x2028 then true   (* LS *)
  else if c =? 0x2029 then true   (* PS *)
  else false.

Definition consume_newline (lexer : TSLexer) : TSLexer :=
  if lookahead lexer =? ch_cr then
    let lexer := advance lexer in
    if lookahead lexer =? ch_lf then advance lexer else lexer
  else
    (* LF, NEL, FF, LS, PS *)
    advance lexer.

(** State of the comment loop: [after_star], [nesting_depth] and the cursor. *)
Record CommentState : Type := mkComment {
  after_star : bool;
  nesting_depth : Z;
  c_lexer : TSLexer
}.

(** One turn of the [for (;;)] of [scan_multiline_comment]. *)
Definition comment_body (s : CommentState) : Step CommentState (bool * TSLexer) :=
  let lexer := c_lexer s in
  let c := lookahead lexer in
  if c =? 0 then Return (false, lexer)
  else if c =? ch_star then
    Continue (mkComment true (nesting_depth s) (advance lexer))
  else if c =? ch_slash then
    if after_star s then
      let lexer := advance lexer in
      let depth := u32 (nesting_depth s - 1) in
      if depth =? 0 then Return (true, set_result_symbol MULTI_LINE_COMMENT lexer)
      else Continue (mkComment false depth lexer)
    else
      let lexer := advance lexer in
      if lookahead lexer =? ch_star then
        Continue (mkComment false (u32 (nesting_depth s + 1)) (advance lexer))
      else Continue (mkComment false (nesting_depth s) lexer)
  else Continue (mkComment false (nesting_depth s) (advance lexer)).

Definition scan_multiline_comment (fuel : nat) (lexer : TSLexer) : option (bool * TSLexer) :=
  if negb (lookahead lexer =? ch_slash) then Some (false, lexer)
  else
    let lexer := advance lexer in
    if negb (lookahead lexer =? ch_star) then Some (false, lexer)
    else
      let lexer := advance lexer in
      loop comment_body fuel (mkComment false 1 lexer).

(** [for (unsigned i = 0; i < hashes; i++)], by the number of turns left. *)
Fixpoint try_consume_hashes_from (turns : nat) (lexer : TSLexer) : bool * TSLexer :=
  match turns with
  | O => (true, lexer)
  | S turns' =>
      if negb (lookahead lexer =? ch_hash) then (false, lexer)
      else try_consume_hashes_from turns' (advance lexer)
  end.

Definition try_consume_hashes (lexer : TSLexer) (hashes : Z) : bool * TSLexer :=
  try_consume_hashes_from (Z.to_nat hashes) lexer.

(** One turn of the [for (;;)] of [scan_raw_string_single_line]. *)
Definition single_line_body (hashes : Z) (lexer : TSLexer) : Step TSLexer (bool * TSLexer) :=
  if eof lexer || (lookahead lexer =? 0) then Return (false, lexer)
  (* Single-line raw strings cannot contain literal newlines. *)
  else if is_newline (lookahead lexer) then Return (false, lexer)
  else if negb (lookahead lexer =? ch_quote) then Continue (advance lexer)
  else
    (* Potential closing delimiter: quote + hashes *)
    let lexer := advance lexer in
    match try_consume_hashes lexer hashes with
    | (true, lexer) => Return (true, set_result_symbol RAW_STRING lexer)
    | (false, lexer) => Continue lexer
    end.

Definition scan_raw_string_single_line (fuel : nat) (lexer : TSLexer) (hashes : Z)
  : option (bool * TSLexer) :=
  loop (single_line_body hashes) fuel lexer.

(** One turn of the [for (;;)] of [scan_raw_string_multi_line]. *)
Definition multi_line_body (hashes : Z) (lexer : TSLexer) : Step TSLexer (bool * TSLexer) :=
  if eof lexer || (lookahead lexer =? 0) then Return (false, lexer)
  else if negb (lookahead lexer =? ch_quote) then
    if is_newline (lookahead lexer) then Continue (consume_newline lexer)
    else Continue (advance lexer)
  else
    (* Potential closing delimiter: three quotes + hashes *)
    let lexer := advance lexer in
    if negb (lookahead lexer =? ch_quote) then Continue lexer
    else
      let lexer := advance lexer in
      if negb (lookahead lexer =? ch_quote) then Continue lexer
      else
        let lexer := advance lexer in
        match try_consume_hashes lexer hashes with
        | (true, lexer) => Return (true, set_result_symbol RAW_STRING lexer)
        | (false, lexer) => Continue lexer
        end.

Definition scan_raw_string_multi_line (fuel : nat) (lexer : TSLexer) (hashes : Z)
  : option (bool * TSLexer) :=
  loop (multi_line_body hashes) fuel lexer.

(** [while (lexer->lookahead == '#') { hashes++; advance(lexer); }] *)
Definition count_hashes_body (s : Z * TSLexer) : Step (Z * TSLexer) (Z * TSLexer) :=
  let (hashes, lexer) := s in
  if lookahead lexer =? ch_hash then Continue (u32 (hashes + 1), advance lexer)
  else Return (hashes, lexer).

Definition scan_raw_string (fuel : nat) (lexer : TSLexer) : option (bool * TSLexer) :=
  if negb (lookahead lexer =? ch_hash) then Some (false, lexer)
  else
    match loop count_hashes_body fuel (0, lexer) with
    | None => None
    | Some (hashes, lexer) =>
        if negb (lookahead lexer =? ch_quote) then Some (false, lexer)
        else
          (* Consume opening quote. *)
          let lexer := advance lexer in
          if lookahead lexer =? ch_quote then
            let lexer := advance lexer in   (* second quote *)
            if negb (lookahead lexer =? ch_quote) then
              (* Empty string must close with the same number of hashes. *)
              match try_consume_hashes lexer hashes with
              | (false, lexer) => Some (false, lexer)
              | (true, lexer) => Some (true, set_result_symbol RAW_STRING lexer)
              end
            else
              (* Third quote: multi-line raw string start, followed by newline. *)
              let lexer := advance lexer in
              if negb (is_newline (lookahead lexer)) then Some (false, lexer)
              else
                let lexer := consume_newline lexer in
                scan_raw_string_multi_line fuel lexer hashes
          else
            (* Otherwise it's a non-empty single-line raw string. *)
            scan_raw_string_single_line fuel lexer hashes
    end.

Definition tree_sitter_kdl_external_scanner_scan
  (fuel : nat) (lexer : TSLexer) (valid_symbols : ValidSymbols) : option (bool * TSLexer) :=
  if valid_symbols _EOF && (lookahead lexer =? 0) then
    Some (true, advance (set_result_symbol _EOF lexer))
  else if valid_symbols RAW_STRING && (lookahead lexer =? ch_hash) then
    scan_raw_string fuel lexer
  else if valid_symbols MULTI_LINE_COMMENT && (lookahead lexer =? ch_slash) then
    scan_multiline_comment fuel lexer
  else Some (false, lexer).

(** A cursor at the start of [text]. *)
Definition start (text : list Z) : TSLexer := mkLexer text 0 _EOF.

(** What the driver sees of a scan: the verdict, the cursor position and the
    reported kind. *)
Definition outcome (r : option (bool * TSLexer)) : option (bool * nat * TokenType) :=
  match r with
  | None => None
  | Some (b, lexer) => Some (b, pos lexer, result_symbol lexer)
  end.

Definition only (k : TokenType) : ValidSymbols :=
  fun k' => match k, k' with
            | _EOF, _EOF | MULTI_LINE_COMMENT, MULTI_LINE_COMMENT | RAW_STRING, RAW_STRING => true
            | _, _ => false
            end.

(** The text ahead of the cursor. *)
Definition ahead (lexer : TSLexer) : list Z := skipn (pos lexer) (input lexer).

(** [skip n] is [n] calls of [advance]. *)
Definition skip (n : nat) (lexer : TSLexer) : TSLexer :=
  mkLexer (input lexer) (n + pos lexer) (result_symbol lexer).

(** [run body n s]: the state after [n] turns of a loop that has not
    returned during them. *)
Fixpoint run {S R : Type} (body : S -> Step S R) (n : nat) (s : S) : option S :=
  match n with
  | O => Some s
  | Datatypes.S n' =>
      match body s with
      | Continue s' => run body n' s'
      | Return _ => None
      end
  end.

(** ** Texts of comments *)

(** A comment body read as the scanner reads it: openers, closers and other
    code points. *)
Inductive CommentPiece : Type :=
  | Plain (c : Z)
  | Open
  | Close.

Definition render_piece (p : CommentPiece) : list Z :=
  match p with
  | Plain c => [c]
  | Open => [ch_slash; ch_star]
  | Close => [ch_star; ch_slash]
  end.

Definition render (ps : list CommentPiece) : list Z := flat_map render_piece ps.

(** A plain code point is neither the sentinel nor part of a delimiter. *)
Definition plain_ok (p : CommentPiece) : bool :=
  match p with
  | Plain c => negb (c =? 0) && negb (c =? ch_slash) && negb (c =? ch_star)
  | _ => true
  end.

(** The nesting depth after [ps], starting from depth [k]; [None] once a
    closer has brought the depth to zero. *)
Fixpoint depth_after (k : nat) (ps : list CommentPiece) : option nat :=
  match ps with
  | [] => Some k
  | Plain _ :: t => depth_after k t
  | Open :: t => depth_after (S k) t
  | Close :: t =>
      match k with
      | S (S k') => depth_after (S k') t
      | _ => None
      end
  end.

(** [d] nested pairs of delimiters around [inner]. *)
Fixpoint nest (d : nat) (inner : list CommentPiece) : list CommentPiece :=
  match d with
  | O => inner
  | S d' => Open :: nest d' inner ++ [Close]
  end.

(** ** Texts of raw strings *)

(** A code point that the single-line body loop just steps over. *)
Definition body_char (c : Z) : bool :=
  negb (c =? 0) && negb (is_newline c) && negb (c =? ch_quote).

(** [opening] number signs, a quote, [body], a quote, [closing] number signs. *)
Definition single_line_text (opening : nat) (body : list Z) (closing : nat) : list Z :=
  repeat ch_hash opening ++ ch_quote :: body ++ ch_quote :: repeat ch_hash closing.

(** [span P l l']: the cursor went from [l] to [l'] over code points that
    all satisfy [P]. *)
Definition span (P : Z -> Prop) (l l' : TSLexer) : Prop :=
  input l' = input l /\ (pos l <= pos l')%nat /\
  forall i, (pos l <= i < pos l')%nat -> P (nth i (input l) 0).

(** What the single-line loop leaves behind it. *)
Definition on_one_line (c : Z) : Prop := c <> 0 /\ is_newline c = false.

(** A multi-line body whose quotes come alone or in pairs, each run followed
    by another code point of the body, and which holds no sentinel. *)
Fixpoint plain_body (body : list Z) : bool :=
  match body with
  | [] => true
  | c :: rest =>
      negb (c =? 0) &&
      (if c =? ch_quote then
         match rest with
         | [] => false
         | d :: rest' =>
             if d =? ch_quote then
               match rest' with
               | [] => false
               | e :: _ => negb (e =? ch_quote)
               end
             else true
         end
       else true) &&
      plain_body rest
  end.

Definition three_quotes : list Z := [ch_quote; ch_quote; ch_quote].

(** [opening] number signs, three quotes, the newline [nl], [body], three
    quotes, [closing] number signs. *)
Definition multi_line_text (opening : nat) (nl : Z) (body : list Z) (closing : nat) : list Z :=
  repeat ch_hash opening ++ three_quotes ++ nl :: body ++ three_quotes ++ repeat ch_hash closing.

(** [truncated pre rest l1 l2]: two cursors at the same place, [l1] over a
    stream that has a NUL code point after [pre], [l2] over the stream that
    ends there. *)
Definition truncated (pre rest : list Z) (l1 l2 : TSLexer) : Prop :=
  input l1 = pre ++ 0 :: rest /\ input l2 = pre /\
  pos l1 = pos l2 /\ (pos l1 <= length pre)%nat /\
  result_symbol l1 = result_symbol l2.

(** Two turns of a loop, or two results, that agree up to [truncated]. *)
Definition same_step {S1 S2 R1 R2 : Type} (RS : S1 -> S2 -> Prop) (RR : R1 -> R2 -> Prop)
  (a : Step S1 R1) (b : Step S2 R2) : Prop :=
  match a, b with
  | Continue s1, Continue s2 => RS s1 s2
  | Return r1, Return r2 => RR r1 r2
  | _, _ => False
  end.

Definition same_option {R1 R2 : Type} (RR : R1 -> R2 -> Prop)
  (a : option R1) (b : option R2) : Prop :=
  match a, b with
  | Some r1, Some r2 => RR r1 r2
  | None, None => True
  | _, _ => False
  end.

Definition same_verdict (pre rest : list Z) (r1 r2 : bool * TSLexer) : Prop :=
  fst r1 = fst r2 /\ truncated pre rest (snd r1) (snd r2).

Definition same_comment_state (pre rest : list Z) (s1 s2 : CommentState) : Prop :=
  after_star s1 = after_star s2 /\ nesting_depth s1 = nesting_depth s2 /\
  truncated pre rest (c_lexer s1) (c_lexer s2).

Definition same_count (pre rest : list Z) (s1 s2 : Z * TSLexer) : Prop :=
  fst s1 = fst s2 /\ truncated pre rest (snd s1) (snd s2).

(** [moved l l']: the cursor went forward over the same stream, and never past
    its end. *)
Definition moved (l l' : TSLexer) : Prop :=
  input l' = input l /\ (pos l <= pos l')%nat /\
  (pos l < pos l' -> pos l' <= length (input l))%nat.

Ltac eqb_hyps :=
  repeat match goal with
  | H : (_ =? _) = true |- _ => apply Z.eqb_eq in H
  | H : (_ =? _) = false |- _ => apply Z.eqb_neq in H
  | H : negb _ = true |- _ => apply negb_true_iff in H
  | H : negb _ = false |- _ => apply negb_false_iff in H
  | H : _ || _ = false |- _ => apply orb_false_iff in H; destruct H
  | H : _ && _ = true |- _ => apply andb_true_iff in H; destruct H
  end.

Ltac split_if :=
  match goal with
  | |- context [if ?b then _ else _] => destruct b eqn:?
  | H : context [if ?b then _ else _] |- _ => destruct b eqn:?
  end.

Create HintDb scan.

(** ** Further texts and relations *)

(** The number of number signs that [text] starts with. *)
Fixpoint leading_hashes (text : list Z) : nat :=
  match text with
  | c :: t => if c =? ch_hash then S (leading_hashes t) else O
  | [] => O
  end.

(** The [n] code points of [text] from index [p] on are all [c]. *)
Definition all_at (c : Z) (text : list Z) (p n : nat) : Prop :=
  forall i, (p <= i < p + n)%nat -> nth i text 0 = c.

(** [opening] number signs, two quotes, and whatever comes after. *)
Definition empty_raw_text (opening : nat) (after : list Z) : list Z :=
  repeat ch_hash opening ++ ch_quote :: ch_quote :: after.

(** An opener, [body] and a closer. *)
Definition flat_comment (body : list Z) : list Z :=
  ch_slash :: ch_star :: body ++ [ch_star; ch_slash].

(** A code point of a comment body that is neither a slash nor the sentinel;
    it may be an asterisk. *)
Definition no_slash (c : Z) : bool := negb (c =? 0) && negb (c =? ch_slash).

(** [shifted pre l1 l2]: [l1] reads, after the text [pre], the stream that
    [l2] reads, at the same place of it. *)
Definition shifted (pre : list Z) (l1 l2 : TSLexer) : Prop :=
  input l1 = pre ++ input l2 /\ pos l1 = (length pre + pos l2)%nat /\
  result_symbol l1 = result_symbol l2.

Definition shifted_verdict (pre : list Z) (r1 r2 : bool * TSLexer) : Prop :=
  fst r1 = fst r2 /\ shifted pre (snd r1) (snd r2).

Definition shifted_comment_state (pre : list Z) (s1 s2 : CommentState) : Prop :=
  after_star s1 = after_star s2 /\ nesting_depth s1 = nesting_depth s2 /\
  shifted pre (c_lexer s1) (c_lexer s2).

Definition shifted_count (pre : list Z) (s1 s2 : Z * TSLexer) : Prop :=
  fst s1 = fst s2 /\ shifted pre (snd s1) (snd s2).

(** A code point other than the sentinel. *)
Definition nonzero (c : Z) : Prop := c <> 0.

(** A single-line raw string whose body holds a quote followed by [inner]
    number signs, fewer than the [opening] ones: [b1], that quote and run,
    [b2], then the real closer and [rest]. *)
Definition single_line_text_with_quote
  (opening : nat) (b1 : list Z) (inner : nat) (b2 rest : list Z) : list Z :=
  repeat ch_hash opening ++ ch_quote :: b1 ++
  ch_quote :: repeat ch_hash inner ++ b2 ++
  ch_quote :: repeat ch_hash opening ++ rest.

(** The same for a multi-line raw string, with three quotes in the body. *)
Definition multi_line_text_with_quotes
  (opening : nat) (nl : Z) (b1 : list Z) (inner : nat) (b2 rest : list Z) : list Z :=
  repeat ch_hash opening ++ three_quotes ++ nl :: b1 ++
  three_quotes ++ repeat ch_hash inner ++ b2 ++
  three_quotes ++ repeat ch_hash opening ++ rest.

(** ** The cursor *)

Lemma skipn_cons_nth (p : nat) (l : list Z) (c : Z) (t : list Z) :
  skipn p l = c :: t -> nth p l 0 = c /\ skipn (S p) l = t /\ (p < length l)%nat.
Proof.
  revert l; induction p as [|p IH]; intros [|x l] H; simpl in *; try discriminate.
  - inversion H; subst; repeat split; lia.
  - destruct (IH l H) as (H1 & H2 & H3); repeat split; auto; lia.
Qed.

Lemma skipn_nil_nth (p : nat) (l : list Z) :
  skipn p l = [] -> nth p l 0 = 0 /\ (length l <= p)%nat.
Proof.
  revert l; induction p as [|p IH]; intros [|x l] H; simpl in *; try discriminate;
    try (split; [reflexivity | lia]).
  destruct (IH l H); split; auto; lia.
Qed.

Lemma ahead_cons lexer c t :
  ahead lexer = c :: t ->
  lookahead lexer = c /\ ahead (advance lexer) = t /\ eof lexer = false.
Proof.
  unfold ahead, lookahead, eof; intros H.
  destruct (skipn_cons_nth _ _ _ _ H) as (H1 & H2 & H3).
  repeat split; auto. apply Nat.leb_gt; exact H3.
Qed.

Lemma ahead_nil lexer :
  ahead lexer = [] -> lookahead lexer = 0 /\ eof lexer = true.
Proof.
  unfold ahead, lookahead, eof; intros H.
  destruct (skipn_nil_nth _ _ H) as (H1 & H2).
  split; auto. apply Nat.leb_le; exact H2.
Qed.

Lemma ahead_start text : ahead (start text) = text.
Proof. reflexivity. Qed.

Lemma ahead_set_result_symbol k lexer : ahead (set_result_symbol k lexer) = ahead lexer.
Proof. reflexivity. Qed.

Lemma lookahead_nonzero_bound lexer :
  lookahead lexer <> 0 -> (pos lexer < length (input lexer))%nat.
Proof.
  unfold lookahead; intros H.
  destruct (Nat.lt_ge_cases (pos lexer) (length (input lexer))) as [Hlt|Hge]; auto.
  rewrite nth_overflow in H by exact Hge. congruence.
Qed.

Lemma eof_lookahead lexer : eof lexer = true -> lookahead lexer = 0.
Proof.
  unfold eof, lookahead; intros H. apply Nat.leb_le in H.
  apply nth_overflow; exact H.
Qed.

Lemma skip_advance n lexer : skip n (advance lexer) = skip (S n) lexer.
Proof. unfold skip, advance; simpl. f_equal; lia. Qed.

Lemma advance_skip n lexer : advance (skip n lexer) = skip (S n) lexer.
Proof. reflexivity. Qed.

Lemma skip_0 lexer : skip 0 lexer = lexer.
Proof. destruct lexer; reflexivity. Qed.

Lemma skip_skip n m lexer : skip n (skip m lexer) = skip (n + m) lexer.
Proof. unfold skip; simpl. f_equal; lia. Qed.

Lemma ahead_skip_app (seg : list Z) : forall lexer rest,
  ahead lexer = seg ++ rest -> ahead (skip (length seg) lexer) = rest.
Proof.
  induction seg as [|c seg IH]; intros lexer rest H; simpl in *.
  - rewrite skip_0; exact H.
  - rewrite <- skip_advance. apply IH.
    destruct (ahead_cons _ _ _ H) as (_ & H2 & _); exact H2.
Qed.

(** ** Loops *)

Section Loops.
Context {S R : Type} (body : S -> Step S R).

Lemma loop_continue fuel s s' :
  body s = Continue s' -> loop body (Datatypes.S fuel) s = loop body fuel s'.
Proof. intros H; simpl; rewrite H; reflexivity. Qed.

Lemma loop_return fuel s r :
  body s = Return r -> loop body (Datatypes.S fuel) s = Some r.
Proof. intros H; simpl; rewrite H; reflexivity. Qed.

Lemma loop_mono : forall fuel fuel' s r,
  loop body fuel s = Some r -> (fuel <= fuel')%nat -> loop body fuel' s = Some r.
Proof.
  induction fuel as [|fuel IH]; intros fuel' s r H Hle; simpl in H; [discriminate|].
  destruct fuel' as [|fuel']; [lia|]. simpl.
  destruct (body s) as [s'|r']; auto. apply IH; auto; lia.
Qed.

(** A loop whose every turn lowers a measure returns within that many turns. *)
Lemma loop_total (mu : S -> nat) :
  (forall s s', body s = Continue s' -> (mu s' < mu s)%nat) ->
  forall fuel s, (mu s < fuel)%nat -> exists r, loop body fuel s = Some r.
Proof.
  intros Hdec; induction fuel as [|fuel IH]; intros s Hlt; [lia|]. simpl.
  destruct (body s) as [s'|r] eqn:E; [|eauto].
  apply IH. specialize (Hdec _ _ E). lia.
Qed.

(** Invariant rule. *)
Lemma loop_inv (I : S -> Prop) (Q : R -> Prop) :
  (forall s s', I s -> body s = Continue s' -> I s') ->
  (forall s r, I s -> body s = Return r -> Q r) ->
  forall fuel s r, I s -> loop body fuel s = Some r -> Q r.
Proof.
  intros Hc Hr; induction fuel as [|fuel IH]; intros s r Hs H; simpl in H; [discriminate|].
  destruct (body s) as [s'|r'] eqn:E.
  - apply (IH s' r); [eapply Hc; eassumption | exact H].
  - injection H as <-. eapply Hr; eassumption.
Qed.
End Loops.

(** ** How far a scan can move the cursor *)

Lemma moved_refl l : moved l l.
Proof. unfold moved; repeat split; lia. Qed.

Lemma moved_trans l1 l2 l3 : moved l1 l2 -> moved l2 l3 -> moved l1 l3.
Proof.
  unfold moved; intros (Hi & Hp & Hb) (Hi' & Hp' & Hb'); rewrite Hi' , Hi in *.
  repeat split; lia.
Qed.

Lemma moved_advance l : lookahead l <> 0 -> moved l (advance l).
Proof.
  intros H; apply lookahead_nonzero_bound in H.
  unfold moved; simpl; repeat split; lia.
Qed.

Lemma moved_set_result_symbol k l l' : moved l l' -> moved l (set_result_symbol k l').
Proof. unfold moved; simpl; auto. Qed.

#[local] Hint Resolve moved_refl moved_advance moved_set_result_symbol : scan.

Lemma try_consume_hashes_from_moved : forall turns l,
  moved l (snd (try_consume_hashes_from turns l)) /\
  result_symbol (snd (try_consume_hashes_from turns l)) = result_symbol l.
Proof.
  induction turns as [|n IH]; intros l; simpl; [split; auto with scan|].
  destruct (lookahead l =? ch_hash) eqn:E; simpl; [|split; auto with scan].
  apply Z.eqb_eq in E. destruct (IH (advance l)) as [Hm Hs]. split; [|exact Hs].
  eapply moved_trans; [apply moved_advance|exact Hm]. rewrite E; discriminate.
Qed.

Lemma try_consume_hashes_moved l hashes b l' :
  try_consume_hashes l hashes = (b, l') -> moved l l' /\ result_symbol l' = result_symbol l.
Proof.
  unfold try_consume_hashes; intros H.
  pose proof (try_consume_hashes_from_moved (Z.to_nat hashes) l) as P.
  rewrite H in P; exact P.
Qed.

Lemma is_newline_nonzero c : is_newline c = true -> c <> 0.
Proof. intros H ->; discriminate. Qed.

Lemma consume_newline_moved l :
  is_newline (lookahead l) = true ->
  moved l (consume_newline l) /\ (pos l < pos (consume_newline l))%nat /\
  result_symbol (consume_newline l) = result_symbol l.
Proof.
  intros H; apply is_newline_nonzero in H. unfold consume_newline.
  pose proof (moved_advance l H) as M.
  destruct (lookahead l =? ch_cr); [|simpl; auto].
  destruct (lookahead (advance l) =? ch_lf) eqn:E; [|simpl; auto].
  apply Z.eqb_eq in E. split; [|simpl; split; [lia|reflexivity]].
  eapply moved_trans; [exact M|]. apply moved_advance. rewrite E; discriminate.
Qed.

Lemma comment_body_continue s s' :
  comment_body s = Continue s' ->
  moved (c_lexer s) (c_lexer s') /\ (pos (c_lexer s) < pos (c_lexer s'))%nat /\
  result_symbol (c_lexer s') = result_symbol (c_lexer s).
Proof.
  unfold comment_body; intros H.
  destruct (lookahead (c_lexer s) =? 0) eqn:E0; [discriminate|]. apply Z.eqb_neq in E0.
  pose proof (moved_advance _ E0) as M.
  repeat split_if; inversion H; subst; simpl;
    (split; [|split; [lia|reflexivity]]); auto.
  eqb_hyps. eapply moved_trans; [exact M|]. apply moved_advance.
  match goal with H : lookahead (advance _) = _ |- _ => rewrite H end. discriminate.
Qed.

Lemma comment_body_return s b l' :
  comment_body s = Return (b, l') ->
  moved (c_lexer s) l' /\
  (b = true -> result_symbol l' = MULTI_LINE_COMMENT) /\
  (b = false -> l' = c_lexer s /\ lookahead l' = 0).
Proof.
  unfold comment_body; intros H.
  destruct (lookahead (c_lexer s) =? 0) eqn:E0.
  - inversion H; subst. apply Z.eqb_eq in E0.
    split; [auto with scan|split; [discriminate|auto]].
  - apply Z.eqb_neq in E0. pose proof (moved_advance _ E0) as M.
    repeat split_if; inversion H; subst; simpl;
      (split; [auto with scan|split; [reflexivity|discriminate]]).
Qed.

Lemma single_line_body_continue hashes l l' :
  single_line_body hashes l = Continue l' ->
  moved l l' /\ (pos l < pos l')%nat /\ result_symbol l' = result_symbol l.
Proof.
  unfold single_line_body; intros H.
  destruct (eof l || (lookahead l =? 0)) eqn:E0; [discriminate|].
  apply orb_false_iff in E0; destruct E0 as [_ E0]; apply Z.eqb_neq in E0.
  pose proof (moved_advance _ E0) as M.
  destruct (is_newline (lookahead l)); [discriminate|].
  destruct (negb (lookahead l =? ch_quote)).
  - inversion H; subst; simpl. split; [exact M|split; [lia|reflexivity]].
  - destruct (try_consume_hashes (advance l) hashes) as [[|] l1] eqn:T; inversion H; subst.
    destruct (try_consume_hashes_moved _ _ _ _ T) as [M1 S1].
    split; [eapply moved_trans; eassumption|].
    destruct M1 as (_ & Hp & _); simpl in Hp. split; [lia|exact S1].
Qed.

Lemma single_line_body_return hashes l b l' :
  single_line_body hashes l = Return (b, l') ->
  moved l l' /\
  (b = true -> result_symbol l' = RAW_STRING) /\
  (b = false -> l' = l).
Proof.
  unfold single_line_body; intros H.
  destruct (eof l || (lookahead l =? 0)) eqn:E0.
  { inversion H; subst. split; [auto with scan|split; [discriminate|auto]]. }
  apply orb_false_iff in E0; destruct E0 as [_ E0]; apply Z.eqb_neq in E0.
  pose proof (moved_advance _ E0) as M.
  destruct (is_newline (lookahead l)).
  { inversion H; subst. split; [auto with scan|split; [discriminate|auto]]. }
  destruct (negb (lookahead l =? ch_quote)); [discriminate|].
  destruct (try_consume_hashes (advance l) hashes) as [[|] l1] eqn:T; inversion H; subst.
  destruct (try_consume_hashes_moved _ _ _ _ T) as [M1 S1].
  split; [|split; [reflexivity|discriminate]].
  apply moved_set_result_symbol. eapply moved_trans; eassumption.
Qed.

Lemma multi_line_body_continue hashes l l' :
  multi_line_body hashes l = Continue l' ->
  moved l l' /\ (pos l < pos l')%nat /\ result_symbol l' = result_symbol l.
Proof.
  unfold multi_line_body; intros H.
  destruct (eof l || (lookahead l =? 0)) eqn:E0; [discriminate|].
  apply orb_false_iff in E0; destruct E0 as [_ E0]; apply Z.eqb_neq in E0.
  pose proof (moved_advance _ E0) as M.
  destruct (negb (lookahead l =? ch_quote)).
  { destruct (is_newline (lookahead l)) eqn:N; inversion H; subst.
    - apply consume_newline_moved; exact N.
    - simpl. split; [exact M|split; [lia|reflexivity]]. }
  destruct (negb (lookahead (advance l) =? ch_quote)) eqn:Q2.
  { inversion H; subst; simpl. split; [exact M|split; [lia|reflexivity]]. }
  eqb_hyps.
  assert (M2 : moved l (advance (advance l))).
  { eapply moved_trans; [exact M|]. apply moved_advance. rewrite Q2; discriminate. }
  destruct (negb (lookahead (advance (advance l)) =? ch_quote)) eqn:Q3.
  { inversion H; subst; simpl. split; [exact M2|split; [lia|reflexivity]]. }
  eqb_hyps.
  assert (M3 : moved l (advance (advance (advance l)))).
  { eapply moved_trans; [exact M2|]. apply moved_advance. rewrite Q3; discriminate. }
  destruct (try_consume_hashes _ hashes) as [[|] l1] eqn:T; inversion H; subst.
  destruct (try_consume_hashes_moved _ _ _ _ T) as [M1 S1].
  split; [eapply moved_trans; eassumption|].
  destruct M1 as (_ & Hp & _); simpl in Hp. split; [lia|exact S1].
Qed.

Lemma multi_line_body_return hashes l b l' :
  multi_line_body hashes l = Return (b, l') ->
  moved l l' /\
  (b = true -> result_symbol l' = RAW_STRING) /\
  (b = false -> l' = l).
Proof.
  unfold multi_line_body; intros H.
  destruct (eof l || (lookahead l =? 0)) eqn:E0.
  { inversion H; subst. split; [auto with scan|split; [discriminate|auto]]. }
  apply orb_false_iff in E0; destruct E0 as [_ E0]; apply Z.eqb_neq in E0.
  pose proof (moved_advance _ E0) as M.
  destruct (negb (lookahead l =? ch_quote)).
  { destruct (is_newline (lookahead l)); discriminate. }
  destruct (negb (lookahead (advance l) =? ch_quote)) eqn:Q2; [discriminate|].
  destruct (negb (lookahead (advance (advance l)) =? ch_quote)) eqn:Q3; [discriminate|].
  eqb_hyps.
  assert (M3 : moved l (advance (advance (advance l)))).
  { eapply moved_trans; [exact M|]. eapply moved_trans; apply moved_advance.
    - rewrite Q2; discriminate.
    - rewrite Q3; discriminate. }
  destruct (try_consume_hashes _ hashes) as [[|] l1] eqn:T; inversion H; subst.
  destruct (try_consume_hashes_moved _ _ _ _ T) as [M1 S1].
  split; [|split; [reflexivity|discriminate]].
  apply moved_set_result_symbol. eapply moved_trans; eassumption.
Qed.

Lemma count_hashes_body_continue s s' :
  count_hashes_body s = Continue s' ->
  moved (snd s) (snd s') /\ (pos (snd s) < pos (snd s'))%nat /\
  result_symbol (snd s') = result_symbol (snd s).
Proof.
  destruct s as [h l]; unfold count_hashes_body; intros H.
  destruct (lookahead l =? ch_hash) eqn:E; inversion H; subst; simpl.
  apply Z.eqb_eq in E. split; [|split; [lia|reflexivity]].
  apply moved_advance. rewrite E; discriminate.
Qed.

Lemma count_hashes_body_return s r :
  count_hashes_body s = Return r -> r = s.
Proof.
  destruct s as [h l]; unfold count_hashes_body.
  destruct (lookahead l =? ch_hash); congruence.
Qed.

Lemma moved_remaining l l' :
  moved l l' -> (pos l < pos l')%nat -> (remaining l' < remaining l)%nat.
Proof. unfold moved, remaining; intros (Hi & Hp & Hb) Hlt; rewrite Hi; lia. Qed.

Lemma moved_remaining_le l l' : moved l l' -> (remaining l' <= remaining l)%nat.
Proof. unfold moved, remaining; intros (Hi & Hp & Hb); rewrite Hi; lia. Qed.

(** ** The loops return, and what they return *)

Lemma comment_loop_total fuel s :
  (remaining (c_lexer s) < fuel)%nat -> exists r, loop comment_body fuel s = Some r.
Proof.
  apply (loop_total comment_body (fun s => remaining (c_lexer s))).
  intros s1 s2 H; destruct (comment_body_continue _ _ H) as (M & P & _).
  apply moved_remaining; assumption.
Qed.

Lemma comment_loop_result fuel s b l' :
  loop comment_body fuel s = Some (b, l') ->
  moved (c_lexer s) l' /\
  (b = true -> result_symbol l' = MULTI_LINE_COMMENT) /\
  (b = false -> lookahead l' = 0 /\ result_symbol l' = result_symbol (c_lexer s)).
Proof.
  apply (loop_inv comment_body
           (fun s' => moved (c_lexer s) (c_lexer s') /\
                      result_symbol (c_lexer s') = result_symbol (c_lexer s))
           (fun r => moved (c_lexer s) (snd r) /\
                     (fst r = true -> result_symbol (snd r) = MULTI_LINE_COMMENT) /\
                     (fst r = false -> lookahead (snd r) = 0 /\
                                       result_symbol (snd r) = result_symbol (c_lexer s)))).
  - intros s1 s2 [M S1] H. destruct (comment_body_continue _ _ H) as (M' & _ & S').
    split; [eapply moved_trans; eassumption|congruence].
  - intros s1 [b1 l1] [M S1] H. destruct (comment_body_return _ _ _ H) as (M' & T & F). simpl.
    split; [eapply moved_trans; eassumption|]. split; [exact T|].
    intros E; destruct (F E) as [-> Z0]. auto.
  - split; [apply moved_refl|reflexivity].
Qed.

Section RawLoops.
Variable body : TSLexer -> Step TSLexer (bool * TSLexer).
Hypothesis body_continue : forall l l',
  body l = Continue l' ->
  moved l l' /\ (pos l < pos l')%nat /\ result_symbol l' = result_symbol l.
Hypothesis body_return : forall l b l',
  body l = Return (b, l') ->
  moved l l' /\ (b = true -> result_symbol l' = RAW_STRING) /\ (b = false -> l' = l).

Lemma raw_loop_total fuel l :
  (remaining l < fuel)%nat -> exists r, loop body fuel l = Some r.
Proof.
  apply (loop_total body remaining).
  intros s1 s2 H; destruct (body_continue _ _ H) as (M & P & _).
  apply moved_remaining; assumption.
Qed.

Lemma raw_loop_result fuel l b l' :
  loop body fuel l = Some (b, l') ->
  moved l l' /\
  (b = true -> result_symbol l' = RAW_STRING) /\
  (b = false -> result_symbol l' = result_symbol l).
Proof.
  apply (loop_inv body
           (fun l1 => moved l l1 /\ result_symbol l1 = result_symbol l)
           (fun r => moved l (snd r) /\
                     (fst r = true -> result_symbol (snd r) = RAW_STRING) /\
                     (fst r = false -> result_symbol (snd r) = result_symbol l))).
  - intros s1 s2 [M S1] H. destruct (body_continue _ _ H) as (M' & _ & S').
    split; [eapply moved_trans; eassumption|congruence].
  - intros s1 [b1 l1] [M S1] H. destruct (body_return _ _ _ H) as (M' & T & F). simpl.
    split; [eapply moved_trans; eassumption|]. split; [exact T|].
    intros E; rewrite (F E); exact S1.
  - split; [apply moved_refl|reflexivity].
Qed.
End RawLoops.

Lemma single_line_total hashes fuel l :
  (remaining l < fuel)%nat -> exists r, scan_raw_string_single_line fuel l hashes = Some r.
Proof. apply (raw_loop_total (single_line_body hashes)), single_line_body_continue. Qed.

Lemma single_line_result hashes fuel l b l' :
  scan_raw_string_single_line fuel l hashes = Some (b, l') ->
  moved l l' /\
  (b = true -> result_symbol l' = RAW_STRING) /\
  (b = false -> result_symbol l' = result_symbol l).
Proof.
  apply (raw_loop_result (single_line_body hashes));
    [apply single_line_body_continue|apply single_line_body_return].
Qed.

Lemma multi_line_total hashes fuel l :
  (remaining l < fuel)%nat -> exists r, scan_raw_string_multi_line fuel l hashes = Some r.
Proof. apply (raw_loop_total (multi_line_body hashes)), multi_line_body_continue. Qed.

Lemma multi_line_result hashes fuel l b l' :
  scan_raw_string_multi_line fuel l hashes = Some (b, l') ->
  moved l l' /\
  (b = true -> result_symbol l' = RAW_STRING) /\
  (b = false -> result_symbol l' = result_symbol l).
Proof.
  apply (raw_loop_result (multi_line_body hashes));
    [apply multi_line_body_continue|apply multi_line_body_return].
Qed.

Lemma count_hashes_total fuel s :
  (remaining (snd s) < fuel)%nat -> exists r, loop count_hashes_body fuel s = Some r.
Proof.
  apply (loop_total count_hashes_body (fun s => remaining (snd s))).
  intros s1 s2 H; destruct (count_hashes_body_continue _ _ H) as (M & P & _).
  apply moved_remaining; assumption.
Qed.

Lemma count_hashes_result fuel s r :
  loop count_hashes_body fuel s = Some r ->
  moved (snd s) (snd r) /\ result_symbol (snd r) = result_symbol (snd s) /\
  lookahead (snd r) <> ch_hash.
Proof.
  apply (loop_inv count_hashes_body
           (fun s' => moved (snd s) (snd s') /\ result_symbol (snd s') = result_symbol (snd s))
           (fun r => moved (snd s) (snd r) /\ result_symbol (snd r) = result_symbol (snd s) /\
                     lookahead (snd r) <> ch_hash)).
  - intros s1 s2 [M S1] H. destruct (count_hashes_body_continue _ _ H) as (M' & _ & S').
    split; [eapply moved_trans; eassumption|congruence].
  - intros [h1 l1] r1 [M S1] H. pose proof (count_hashes_body_return _ _ H) as ->.
    split; [exact M|split; [exact S1|]]. simpl in *.
    destruct (lookahead l1 =? ch_hash) eqn:E; [discriminate|]. apply Z.eqb_neq; exact E.
  - split; [apply moved_refl|reflexivity].
Qed.

(** ** The scanners return, and what they return *)

Lemma scan_multiline_comment_total fuel l :
  (remaining l < fuel)%nat -> exists r, scan_multiline_comment fuel l = Some r.
Proof.
  intros Hf; unfold scan_multiline_comment.
  destruct (lookahead l =? ch_slash) eqn:E1; simpl; [|eauto].
  destruct (lookahead (advance l) =? ch_star) eqn:E2; simpl; [|eauto].
  eqb_hyps. apply comment_loop_total; simpl.
  assert (M : moved l (advance (advance l))).
  { eapply moved_trans; apply moved_advance; [rewrite E1|rewrite E2]; discriminate. }
  apply moved_remaining_le in M. lia.
Qed.

Lemma scan_multiline_comment_result fuel l b l' :
  scan_multiline_comment fuel l = Some (b, l') ->
  moved l l' /\
  (b = true -> result_symbol l' = MULTI_LINE_COMMENT) /\
  (b = false -> result_symbol l' = result_symbol l).
Proof.
  unfold scan_multiline_comment.
  destruct (lookahead l =? ch_slash) eqn:E1; simpl.
  2:{ intros H; inversion H; subst. split; [apply moved_refl|split; [discriminate|auto]]. }
  apply Z.eqb_eq in E1.
  assert (M1 : moved l (advance l)) by (apply moved_advance; rewrite E1; discriminate).
  destruct (lookahead (advance l) =? ch_star) eqn:E2; simpl.
  2:{ intros H; inversion H; subst. split; [exact M1|split; [discriminate|auto]]. }
  apply Z.eqb_eq in E2.
  assert (M2 : moved (advance l) (advance (advance l)))
    by (apply moved_advance; rewrite E2; discriminate).
  intros H; destruct (comment_loop_result _ _ _ _ H) as (M & T & F); simpl in *.
  split; [eauto using moved_trans|]. split; [exact T|]. intros E; apply F; exact E.
Qed.

Lemma scan_raw_string_total fuel l :
  (remaining l < fuel)%nat -> exists r, scan_raw_string fuel l = Some r.
Proof.
  intros Hf; unfold scan_raw_string.
  destruct (negb (lookahead l =? ch_hash)); [eauto|].
  destruct (count_hashes_total fuel (0, l) Hf) as [[h l1] C]; rewrite C.
  destruct (count_hashes_result _ _ _ C) as (M & _ & _); simpl in M.
  destruct (lookahead l1 =? ch_quote) eqn:Q1; simpl; [|eauto]. apply Z.eqb_eq in Q1.
  assert (M1 : moved l (advance l1)).
  { eapply moved_trans; [exact M|]. apply moved_advance; rewrite Q1; discriminate. }
  destruct (lookahead (advance l1) =? ch_quote) eqn:Q2.
  2:{ apply single_line_total. apply moved_remaining_le in M1; lia. }
  apply Z.eqb_eq in Q2.
  assert (M2 : moved l (advance (advance l1))).
  { eapply moved_trans; [exact M1|]. apply moved_advance; rewrite Q2; discriminate. }
  destruct (lookahead (advance (advance l1)) =? ch_quote) eqn:Q3; simpl.
  2:{ destruct (try_consume_hashes _ h) as [[|] l2]; eauto. }
  apply Z.eqb_eq in Q3.
  assert (M3 : moved l (advance (advance (advance l1)))).
  { eapply moved_trans; [exact M2|]. apply moved_advance; rewrite Q3; discriminate. }
  destruct (is_newline (lookahead (advance (advance (advance l1))))) eqn:N; simpl; [|eauto].
  apply multi_line_total.
  destruct (consume_newline_moved _ N) as (M4 & _ & _).
  pose proof (moved_remaining_le _ _ (moved_trans _ _ _ M3 M4)). lia.
Qed.

Lemma scan_raw_string_result fuel l b l' :
  scan_raw_string fuel l = Some (b, l') ->
  moved l l' /\
  (b = true -> result_symbol l' = RAW_STRING) /\
  (b = false -> result_symbol l' = result_symbol l).
Proof.
  unfold scan_raw_string.
  destruct (negb (lookahead l =? ch_hash)).
  { intros H; inversion H; subst. split; [apply moved_refl|split; [discriminate|auto]]. }
  destruct (loop count_hashes_body fuel (0, l)) as [[h l1]|] eqn:C; [|discriminate].
  destruct (count_hashes_result _ _ _ C) as (M & S0 & _); simpl in M, S0.
  destruct (lookahead l1 =? ch_quote) eqn:Q1; simpl.
  2:{ intros H; inversion H; subst. split; [exact M|split; [discriminate|auto]]. }
  apply Z.eqb_eq in Q1.
  assert (M1 : moved l (advance l1)).
  { eapply moved_trans; [exact M|]. apply moved_advance; rewrite Q1; discriminate. }
  destruct (lookahead (advance l1) =? ch_quote) eqn:Q2.
  2:{ intros H; destruct (single_line_result _ _ _ _ _ H) as (M' & T & F).
      split; [eauto using moved_trans|]. split; [exact T|].
      intros E; rewrite (F E); exact S0. }
  apply Z.eqb_eq in Q2.
  assert (M2 : moved l (advance (advance l1))).
  { eapply moved_trans; [exact M1|]. apply moved_advance; rewrite Q2; discriminate. }
  destruct (lookahead (advance (advance l1)) =? ch_quote) eqn:Q3; simpl.
  2:{ destruct (try_consume_hashes _ h) as [[|] l2] eqn:T;
        destruct (try_consume_hashes_moved _ _ _ _ T) as [M' S'];
        intros H; inversion H; subst.
      - split; [apply moved_set_result_symbol; eauto using moved_trans|].
        split; [reflexivity|discriminate].
      - split; [eauto using moved_trans|]. split; [discriminate|].
        intros _; rewrite S'; exact S0. }
  apply Z.eqb_eq in Q3.
  assert (M3 : moved l (advance (advance (advance l1)))).
  { eapply moved_trans; [exact M2|]. apply moved_advance; rewrite Q3; discriminate. }
  destruct (is_newline (lookahead (advance (advance (advance l1))))) eqn:N; simpl.
  2:{ intros H; inversion H; subst. split; [exact M3|split; [discriminate|auto]]. }
  destruct (consume_newline_moved _ N) as (M4 & _ & S4).
  intros H; destruct (multi_line_result _ _ _ _ _ H) as (M' & T & F).
  split; [eauto using moved_trans|]. split; [exact T|].
  intros E; rewrite (F E), S4; exact S0.
Qed.

(** ** Newlines *)

(** C6: [is_newline] holds exactly of CR, LF, NEL, FF, LS and PS; and
    [consume_newline], called on a cursor whose lookahead satisfies it, takes
    CR immediately followed by LF as one unit of two code points and every
    other newline as one code point, so it advances once or twice and touches
    nothing else. *)
Theorem newline_forms_and_consumer :
  (forall c : Z,
      is_newline c = true <->
      c = 13 \/ c = 10 \/ c = 0x0085 \/ c = 0x000C \/ c = 0x2028 \/ c = 0x2029) /\
  (forall lexer : TSLexer,
      is_newline (lookahead lexer) = true ->
      consume_newline lexer =
        (if (lookahead lexer =? 13) && (lookahead (advance lexer) =? 10)
         then skip 2 lexer else skip 1 lexer) /\
      (pos lexer + 1 <= pos (consume_newline lexer) <= pos lexer + 2)%nat).
Proof.
  split.
  - intros c; unfold is_newline, ch_cr, ch_lf. split.
    + intros H. repeat split_if; eqb_hyps; try discriminate; lia.
    + intros [->|[->|[->|[->|[->| ->]]]]]; reflexivity.
  - intros lexer _. unfold consume_newline, ch_cr, ch_lf.
    destruct (lookahead lexer =? 13); simpl;
      [destruct (lookahead (advance lexer) =? 10); simpl|];
      (split; [reflexivity|lia]).
Qed.

Lemma newline_forms_and_consumer_witness :
  consume_newline (start [13; 10; 97]) = skip 2 (start [13; 10; 97]) /\
  consume_newline (start [13; 97]) = skip 1 (start [13; 97]) /\
  consume_newline (start [0x2028; 10]) = skip 1 (start [0x2028; 10]).
Proof.
  split; [|split].
  - exact (proj1 (proj2 newline_forms_and_consumer (start [13; 10; 97]) eq_refl)).
  - exact (proj1 (proj2 newline_forms_and_consumer (start [13; 97]) eq_refl)).
  - exact (proj1 (proj2 newline_forms_and_consumer (start [0x2028; 10]) eq_refl)).
Defined.

(** ** Dispatch *)

(** C9: when none of the three guards of the entry point applies, the scan
    reports no match and hands the cursor back exactly as it received it. *)
Theorem scan_no_guard_leaves_cursor
  (fuel : nat) (lexer : TSLexer) (valid_symbols : ValidSymbols) :
  ~ (valid_symbols _EOF = true /\ lookahead lexer = 0) ->
  ~ (valid_symbols RAW_STRING = true /\ lookahead lexer = ch_hash) ->
  ~ (valid_symbols MULTI_LINE_COMMENT = true /\ lookahead lexer = ch_slash) ->
  tree_sitter_kdl_external_scanner_scan fuel lexer valid_symbols = Some (false, lexer).
Proof.
  intros H1 H2 H3. unfold tree_sitter_kdl_external_scanner_scan.
  destruct (valid_symbols _EOF && (lookahead lexer =? 0)) eqn:E1.
  { exfalso; apply H1. eqb_hyps; auto. }
  destruct (valid_symbols RAW_STRING && (lookahead lexer =? ch_hash)) eqn:E2.
  { exfalso; apply H2. eqb_hyps; auto. }
  destruct (valid_symbols MULTI_LINE_COMMENT && (lookahead lexer =? ch_slash)) eqn:E3.
  { exfalso; apply H3. eqb_hyps; auto. }
  reflexivity.
Qed.

Lemma scan_no_guard_leaves_cursor_witness :
  tree_sitter_kdl_external_scanner_scan 0 (start [ch_slash; ch_star]) (only RAW_STRING)
  = Some (false, start [ch_slash; ch_star]).
Proof.
  apply scan_no_guard_leaves_cursor; intros [H1 H2]; discriminate.
Defined.

(** C4: a successful scan reports a kind that the driver asked for, and the
    entry point tries end-of-input first, then the raw string on a number
    sign, then the comment on a slash. *)
Theorem scan_reports_requested_kind
  (fuel : nat) (lexer : TSLexer) (valid_symbols : ValidSymbols) :
  (forall lexer',
      tree_sitter_kdl_external_scanner_scan fuel lexer valid_symbols = Some (true, lexer') ->
      valid_symbols (result_symbol lexer') = true) /\
  (valid_symbols _EOF = true -> lookahead lexer = 0 ->
   tree_sitter_kdl_external_scanner_scan fuel lexer valid_symbols
   = Some (true, mkLexer (input lexer) (S (pos lexer)) _EOF)) /\
  (valid_symbols RAW_STRING = true -> lookahead lexer = ch_hash ->
   tree_sitter_kdl_external_scanner_scan fuel lexer valid_symbols
   = scan_raw_string fuel lexer) /\
  (valid_symbols MULTI_LINE_COMMENT = true -> lookahead lexer = ch_slash ->
   tree_sitter_kdl_external_scanner_scan fuel lexer valid_symbols
   = scan_multiline_comment fuel lexer).
Proof.
  unfold tree_sitter_kdl_external_scanner_scan. repeat apply conj.
  - intros lexer'.
    destruct (valid_symbols _EOF && (lookahead lexer =? 0)) eqn:E1.
    { intros H; inversion H; subst; simpl. eqb_hyps; assumption. }
    destruct (valid_symbols RAW_STRING && (lookahead lexer =? ch_hash)) eqn:E2.
    { intros H. destruct (scan_raw_string_result _ _ _ _ H) as (_ & T & _).
      rewrite T by reflexivity. eqb_hyps; assumption. }
    destruct (valid_symbols MULTI_LINE_COMMENT && (lookahead lexer =? ch_slash)) eqn:E3.
    { intros H. destruct (scan_multiline_comment_result _ _ _ _ H) as (_ & T & _).
      rewrite T by reflexivity. eqb_hyps; assumption. }
    discriminate.
  - intros V L. rewrite V, L. reflexivity.
  - intros V L. rewrite V, L. rewrite andb_false_r. reflexivity.
  - intros V L. rewrite V, L. rewrite !andb_false_r. reflexivity.
Qed.

Lemma scan_reports_requested_kind_witness :
  tree_sitter_kdl_external_scanner_scan 9 (start [35; 34; 34; 35]) (only RAW_STRING)
  = scan_raw_string 9 (start [35; 34; 34; 35]) /\
  only RAW_STRING (result_symbol (mkLexer [35; 34; 34; 35] 4 RAW_STRING)) = true.
Proof.
  split.
  - apply (scan_reports_requested_kind 9 (start [35; 34; 34; 35]) (only RAW_STRING));
      reflexivity.
  - apply (scan_reports_requested_kind 9 (start [35; 34; 34; 35]) (only RAW_STRING)).
    reflexivity.
Defined.

(** ** Termination *)

Lemma scan_raw_string_mono fuel fuel' l r :
  scan_raw_string fuel l = Some r -> (fuel <= fuel')%nat -> scan_raw_string fuel' l = Some r.
Proof.
  unfold scan_raw_string; intros H Hle.
  destruct (negb (lookahead l =? ch_hash)); [exact H|].
  destruct (loop count_hashes_body fuel (0, l)) as [[h l1]|] eqn:C; [|discriminate].
  rewrite (loop_mono _ _ _ _ _ C Hle).
  destruct (negb (lookahead l1 =? ch_quote)); [exact H|].
  destruct (lookahead (advance l1) =? ch_quote).
  - destruct (negb (lookahead (advance (advance l1)) =? ch_quote)); [exact H|].
    destruct (negb (is_newline (lookahead (advance (advance (advance l1)))))); [exact H|].
    unfold scan_raw_string_multi_line in *. eapply loop_mono; eassumption.
  - unfold scan_raw_string_single_line in *. eapply loop_mono; eassumption.
Qed.

Lemma scan_mono fuel fuel' l v r :
  tree_sitter_kdl_external_scanner_scan fuel l v = Some r -> (fuel <= fuel')%nat ->
  tree_sitter_kdl_external_scanner_scan fuel' l v = Some r.
Proof.
  unfold tree_sitter_kdl_external_scanner_scan; intros H Hle.
  destruct (v _EOF && (lookahead l =? 0)); [exact H|].
  destruct (v RAW_STRING && (lookahead l =? ch_hash)).
  { eapply scan_raw_string_mono; eassumption. }
  destruct (v MULTI_LINE_COMMENT && (lookahead l =? ch_slash)); [|exact H].
  unfold scan_multiline_comment in *.
  destruct (negb (lookahead l =? ch_slash)); [exact H|].
  destruct (negb (lookahead (advance l) =? ch_star)); [exact H|].
  eapply loop_mono; eassumption.
Qed.

(** C8: on a finite stream every scan returns, a match or a failure: a turn of
    the comment loop, of the single-line loop or of the multi-line loop moves
    the cursor forward by at least one code point within the stream or leaves
    the loop, so as many turns as there are code points ahead (and one more
    to see the end) are always enough, and more turns change nothing. *)
Theorem scan_terminates :
  (forall s s', comment_body s = Continue s' ->
      (pos (c_lexer s) < pos (c_lexer s') <= length (input (c_lexer s)))%nat) /\
  (forall hashes l l', single_line_body hashes l = Continue l' ->
      (pos l < pos l' <= length (input l))%nat) /\
  (forall hashes l l', multi_line_body hashes l = Continue l' ->
      (pos l < pos l' <= length (input l))%nat) /\
  (forall (fuel : nat) (lexer : TSLexer) (valid_symbols : ValidSymbols),
      (remaining lexer < fuel)%nat ->
      exists b lexer',
        tree_sitter_kdl_external_scanner_scan fuel lexer valid_symbols = Some (b, lexer') /\
        input lexer' = input lexer /\
        (pos lexer <= pos lexer' <= Nat.max (S (pos lexer)) (length (input lexer)))%nat /\
        forall fuel', (fuel <= fuel')%nat ->
          tree_sitter_kdl_external_scanner_scan fuel' lexer valid_symbols = Some (b, lexer')).
Proof.
  assert (P : forall l l', moved l l' -> (pos l < pos l')%nat ->
                           (pos l < pos l' <= length (input l))%nat).
  { intros l l' (Hi & Hp & Hb) Hlt. split; auto. }
  assert (Q : forall l l', moved l l' ->
     input l' = input l /\
     (pos l <= pos l' <= Nat.max (S (pos l)) (length (input l)))%nat).
  { intros l l' (Hi & Hp & Hb). split; [exact Hi|]. lia. }
  repeat apply conj.
  - intros s s' H. destruct (comment_body_continue _ _ H) as (M & L & _). auto.
  - intros h l l' H. destruct (single_line_body_continue _ _ _ H) as (M & L & _). auto.
  - intros h l l' H. destruct (multi_line_body_continue _ _ _ H) as (M & L & _). auto.
  - intros fuel lexer v Hf.
    assert (E : exists b lexer',
      tree_sitter_kdl_external_scanner_scan fuel lexer v = Some (b, lexer') /\
      input lexer' = input lexer /\
      (pos lexer <= pos lexer' <= Nat.max (S (pos lexer)) (length (input lexer)))%nat).
    { unfold tree_sitter_kdl_external_scanner_scan.
      destruct (v _EOF && (lookahead lexer =? 0)).
      { do 2 eexists; split; [reflexivity|].
        unfold advance, set_result_symbol; cbn [pos input]. split; [reflexivity|lia]. }
      destruct (v RAW_STRING && (lookahead lexer =? ch_hash)).
      { destruct (scan_raw_string_total _ _ Hf) as [[b l'] H].
        destruct (scan_raw_string_result _ _ _ _ H) as (M & _). eauto. }
      destruct (v MULTI_LINE_COMMENT && (lookahead lexer =? ch_slash)).
      { destruct (scan_multiline_comment_total _ _ Hf) as [[b l'] H].
        destruct (scan_multiline_comment_result _ _ _ _ H) as (M & _). eauto. }
      do 2 eexists; split; [reflexivity|]. split; [reflexivity|lia]. }
    destruct E as (b & lexer' & H & Hi & Hp). exists b, lexer'.
    repeat split; try assumption; try lia.
    intros fuel' Hle. eapply scan_mono; eassumption.
Qed.

Lemma scan_terminates_witness :
  exists b lexer',
    tree_sitter_kdl_external_scanner_scan 12 (start [47; 42; 32; 110; 111; 32; 99; 108; 111; 115; 101])
      (only MULTI_LINE_COMMENT) = Some (b, lexer') /\
    (pos lexer' <= 11)%nat.
Proof.
  destruct (proj2 (proj2 (proj2 scan_terminates)) 12%nat
              (start [47; 42; 32; 110; 111; 32; 99; 108; 111; 115; 101])
              (only MULTI_LINE_COMMENT)) as (b & l' & H & _ & Hp & _).
  - unfold remaining, start; simpl. lia.
  - exists b, l'. split; [exact H|]. simpl in Hp. lia.
Defined.

(** ** Block comments *)

Lemma u32_small z : 0 <= z < 2 ^ 32 -> u32 z = z.
Proof. intros H; unfold u32; apply Z.mod_small; exact H. Qed.

Lemma run_loop {S R : Type} (body : S -> Step S R) : forall n s s' fuel,
  run body n s = Some s' -> loop body (n + fuel) s = loop body fuel s'.
Proof.
  induction n as [|n IH]; intros s s' fuel H; simpl in *.
  - congruence.
  - destruct (body s) as [s1|r]; [|discriminate]. apply IH; exact H.
Qed.

Lemma run_app {S R : Type} (body : S -> Step S R) : forall n m s s' s'',
  run body n s = Some s' -> run body m s' = Some s'' -> run body (n + m) s = Some s''.
Proof.
  induction n as [|n IH]; intros m s s' s'' H1 H2; simpl in *.
  - congruence.
  - destruct (body s) as [s1|r]; [|discriminate]. eapply IH; eassumption.
Qed.

Lemma length_render_le ps : (length ps <= length (render ps))%nat.
Proof.
  induction ps as [|p ps IH]; simpl; [lia|].
  rewrite length_app. destruct p; simpl; lia.
Qed.

(** The turns of the comment loop, by what is ahead. *)
Lemma comment_body_end a k l :
  lookahead l = 0 -> comment_body (mkComment a k l) = Return (false, l).
Proof. intros H; unfold comment_body; simpl; rewrite H; reflexivity. Qed.

Lemma comment_body_plain a k l :
  lookahead l <> 0 -> lookahead l <> ch_star -> lookahead l <> ch_slash ->
  comment_body (mkComment a k l) = Continue (mkComment false k (advance l)).
Proof.
  intros H0 H1 H2; unfold comment_body; simpl.
  apply Z.eqb_neq in H0, H1, H2. rewrite H0, H1, H2. reflexivity.
Qed.

Lemma comment_body_star a k l :
  lookahead l = ch_star ->
  comment_body (mkComment a k l) = Continue (mkComment true k (advance l)).
Proof. intros H; unfold comment_body; simpl; rewrite H; reflexivity. Qed.

Lemma comment_body_open k l :
  lookahead l = ch_slash -> lookahead (advance l) = ch_star ->
  comment_body (mkComment false k l)
  = Continue (mkComment false (u32 (k + 1)) (advance (advance l))).
Proof. intros H1 H2; unfold comment_body; simpl; rewrite H1; simpl; rewrite H2; reflexivity. Qed.

Lemma comment_body_close k l :
  lookahead l = ch_slash ->
  comment_body (mkComment true k l)
  = if u32 (k - 1) =? 0
    then Return (true, set_result_symbol MULTI_LINE_COMMENT (advance l))
    else Continue (mkComment false (u32 (k - 1)) (advance l)).
Proof. intros H; unfold comment_body; simpl; rewrite H; reflexivity. Qed.

(** The loop walks over well-formed pieces and keeps their depth. *)
Lemma comment_run_pieces : forall ps k k' lexer rest,
  forallb plain_ok ps = true ->
  depth_after k ps = Some k' ->
  (1 <= k)%nat ->
  Z.of_nat k + Z.of_nat (length ps) < 2 ^ 32 ->
  ahead lexer = render ps ++ rest ->
  exists n,
    run comment_body n (mkComment false (Z.of_nat k) lexer)
    = Some (mkComment false (Z.of_nat k') (skip (length (render ps)) lexer)).
Proof.
  induction ps as [|p ps IH]; intros k k' lexer rest Hok Hd Hk Hb Ha.
  - exists 0%nat. simpl in *. rewrite skip_0. congruence.
  - simpl in Hok. apply andb_true_iff in Hok; destruct Hok as [Hp Hok].
    cbn [length] in Hb. destruct p as [c| |]; simpl in Hd, Ha, Hp.
    + destruct (ahead_cons _ _ _ Ha) as (L & A & _).
      destruct (IH k k' (advance lexer) rest Hok Hd Hk ltac:(lia) A) as [n Hn].
      exists (S n). cbn [run]. eqb_hyps.
      rewrite comment_body_plain by congruence.
      rewrite Hn. cbn [render flat_map render_piece length app].
      rewrite skip_advance. reflexivity.
    + destruct (ahead_cons _ _ _ Ha) as (L & A & _).
      destruct (ahead_cons _ _ _ A) as (L2 & A2 & _).
      destruct (IH (S k) k' (advance (advance lexer)) rest Hok Hd ltac:(lia) ltac:(lia) A2)
        as [n Hn].
      exists (S n). cbn [run].
      rewrite comment_body_open by assumption.
      rewrite u32_small by lia.
      replace (Z.of_nat k + 1) with (Z.of_nat (S k)) by lia.
      rewrite Hn. cbn [render flat_map render_piece length app].
      rewrite !skip_advance. reflexivity.
    + destruct k as [|[|k]]; try discriminate.
      destruct (ahead_cons _ _ _ Ha) as (L & A & _).
      destruct (ahead_cons _ _ _ A) as (L2 & A2 & _).
      destruct (IH (S k) k' (advance (advance lexer)) rest Hok Hd ltac:(lia) ltac:(lia) A2)
        as [n Hn].
      exists (S (S n)). cbn [run].
      rewrite comment_body_star by assumption.
      rewrite comment_body_close by assumption.
      rewrite u32_small by lia.
      replace (Z.of_nat (S (S k)) - 1) with (Z.of_nat (S k)) by lia.
      destruct (Z.of_nat (S k) =? 0) eqn:E; [apply Z.eqb_eq in E; lia|].
      rewrite Hn. cbn [render flat_map render_piece length app].
      rewrite !skip_advance. reflexivity.
Qed.

Lemma loop_agree {S R : Type} (body : S -> Step S R) f1 f2 s r1 r2 :
  loop body f1 s = Some r1 -> loop body f2 s = Some r2 -> r1 = r2.
Proof.
  intros H1 H2.
  pose proof (loop_mono body _ (Nat.max f1 f2) _ _ H1 (Nat.le_max_l _ _)) as E1.
  pose proof (loop_mono body _ (Nat.max f1 f2) _ _ H2 (Nat.le_max_r _ _)) as E2.
  congruence.
Qed.

(** A loop that returns at all returns what its last turn returns. *)
Lemma loop_from_run {S R : Type} (body : S -> Step S R) n s s' r fuel :
  run body n s = Some s' -> body s' = Return r ->
  (exists r', loop body fuel s = Some r') -> loop body fuel s = Some r.
Proof.
  intros Hrun Hret [r' H].
  assert (E : loop body (n + 1) s = Some r).
  { rewrite (run_loop body n s s' 1 Hrun). apply loop_return; exact Hret. }
  rewrite H. f_equal. eapply loop_agree; eassumption.
Qed.

Lemma scan_dispatch_comment fuel l v :
  v MULTI_LINE_COMMENT = true -> lookahead l = ch_slash ->
  tree_sitter_kdl_external_scanner_scan fuel l v = scan_multiline_comment fuel l.
Proof.
  intros V L; unfold tree_sitter_kdl_external_scanner_scan.
  rewrite V, L, !andb_false_r. reflexivity.
Qed.

Lemma scan_dispatch_raw fuel l v :
  v RAW_STRING = true -> lookahead l = ch_hash ->
  tree_sitter_kdl_external_scanner_scan fuel l v = scan_raw_string fuel l.
Proof.
  intros V L; unfold tree_sitter_kdl_external_scanner_scan.
  rewrite V, L, !andb_false_r. reflexivity.
Qed.

Lemma scan_multiline_comment_opened fuel l t :
  ahead l = ch_slash :: ch_star :: t ->
  scan_multiline_comment fuel l = loop comment_body fuel (mkComment false 1 (skip 2 l)).
Proof.
  intros A. destruct (ahead_cons _ _ _ A) as (L & A1 & _).
  destruct (ahead_cons _ _ _ A1) as (L1 & _ & _).
  unfold scan_multiline_comment. rewrite L; simpl. rewrite L1; reflexivity.
Qed.

Lemma render_app ps qs : render (ps ++ qs) = render ps ++ render qs.
Proof. unfold render; apply flat_map_app. Qed.

Lemma well_nested_comment_scans
  (ps : list CommentPiece) (rest : list Z) (fuel : nat) (valid_symbols : ValidSymbols) :
  valid_symbols MULTI_LINE_COMMENT = true ->
  forallb plain_ok ps = true ->
  depth_after 1 ps = Some 1%nat ->
  addressable (render (Open :: ps ++ [Close]) ++ rest) ->
  (length (render (Open :: ps ++ [Close]) ++ rest) < fuel)%nat ->
  tree_sitter_kdl_external_scanner_scan fuel
    (start (render (Open :: ps ++ [Close]) ++ rest)) valid_symbols
  = Some (true, mkLexer (render (Open :: ps ++ [Close]) ++ rest)
                        (length (render (Open :: ps ++ [Close]))) MULTI_LINE_COMMENT).
Proof.
  intros V Hok Hd Haddr Hfuel.
  set (text := render (Open :: ps ++ [Close]) ++ rest) in *.
  assert (A : ahead (start text) = ch_slash :: ch_star :: render ps ++ (ch_star :: ch_slash :: rest)).
  { rewrite ahead_start. unfold text. cbn [render flat_map render_piece app].
    fold (render (ps ++ [Close])). rewrite render_app, <- app_assoc. reflexivity. }
  destruct (ahead_cons _ _ _ A) as (L & A1 & _).
  destruct (ahead_cons _ _ _ A1) as (_ & A2 & _).
  rewrite scan_dispatch_comment by assumption.
  rewrite (scan_multiline_comment_opened _ _ _ A).
  assert (Hlen : (length ps + 4 <= length text)%nat).
  { unfold text. rewrite length_app. cbn [render flat_map]. rewrite length_app.
    fold (render (ps ++ [Close])). rewrite render_app, length_app.
    pose proof (length_render_le ps). simpl. lia. }
  destruct (comment_run_pieces ps 1 1 (skip 2 (start text)) (ch_star :: ch_slash :: rest)
              Hok Hd (le_n _)) as [n Hn].
  { unfold addressable in Haddr. lia. }
  { exact A2. }
  pose proof (ahead_skip_app (render ps) _ _ A2) as A3.
  destruct (ahead_cons _ _ _ A3) as (L3 & A4 & _).
  destruct (ahead_cons _ _ _ A4) as (L4 & _ & _).
  assert (R2 : run comment_body (n + 1)
                 (mkComment false 1 (skip 2 (start text)))
               = Some (mkComment true 1 (advance (skip (length (render ps)) (skip 2 (start text)))))).
  { eapply run_app; [exact Hn|]. cbn [run Z.of_nat Pos.of_succ_nat].
    rewrite comment_body_star by exact L3. reflexivity. }
  rewrite (loop_from_run comment_body _ _ _
             (true, mkLexer text (length (render (Open :: ps ++ [Close]))) MULTI_LINE_COMMENT)
             fuel R2).
  - reflexivity.
  - rewrite comment_body_close by exact L4.
    change (u32 (1 - 1) =? 0) with true. cbv iota.
    do 2 f_equal. unfold set_result_symbol, advance, skip, start; cbn [input pos result_symbol].
    f_equal. cbn [render flat_map]. rewrite length_app.
    fold (render (ps ++ [Close])). rewrite render_app, length_app. simpl. lia.
  - apply comment_loop_total. unfold remaining, skip, start; cbn [c_lexer input pos].
    fold text. lia.
Qed.

Lemma depth_after_plain body k t :
  depth_after k (map Plain body ++ t) = depth_after k t.
Proof. induction body as [|c body IH]; simpl; auto. Qed.

Lemma depth_after_nest body : forall d k t,
  (1 <= k)%nat ->
  depth_after k (nest d (map Plain body) ++ t) = depth_after k t.
Proof.
  induction d as [|d IH]; intros k t Hk; simpl.
  - apply depth_after_plain.
  - rewrite <- app_assoc. rewrite IH by lia. simpl.
    destruct k as [|k]; [lia|reflexivity].
Qed.

Lemma plain_ok_nest inner : forall d,
  forallb plain_ok inner = true -> forallb plain_ok (nest d inner) = true.
Proof.
  induction d as [|d IH]; intros H; simpl; auto.
  rewrite forallb_app, IH by exact H. reflexivity.
Qed.

(** C2: a well-nested comment scans as one multi-line-comment token that ends
    right after the closer matching the outermost opener, whatever follows
    it; so does, for every depth [d >= 1], the comment made of [d] nested
    pairs of delimiters.  The depth counter is 1 after the opening
    delimiter, goes up by one at each later opener and down by one at each
    closer, and the scan completes exactly when a closer brings it to 0. *)
Theorem nested_comment_is_one_token :
  (forall (ps : list CommentPiece) (rest : list Z) (fuel : nat) (valid_symbols : ValidSymbols),
      valid_symbols MULTI_LINE_COMMENT = true ->
      forallb plain_ok ps = true ->
      depth_after 1 ps = Some 1%nat ->
      addressable (render (Open :: ps ++ [Close]) ++ rest) ->
      (length (render (Open :: ps ++ [Close]) ++ rest) < fuel)%nat ->
      tree_sitter_kdl_external_scanner_scan fuel
        (start (render (Open :: ps ++ [Close]) ++ rest)) valid_symbols
      = Some (true, mkLexer (render (Open :: ps ++ [Close]) ++ rest)
                            (length (render (Open :: ps ++ [Close]))) MULTI_LINE_COMMENT)) /\
  (forall (d : nat) (body rest : list Z) (fuel : nat) (valid_symbols : ValidSymbols),
      (1 <= d)%nat ->
      valid_symbols MULTI_LINE_COMMENT = true ->
      forallb plain_ok (map Plain body) = true ->
      addressable (render (nest d (map Plain body)) ++ rest) ->
      (length (render (nest d (map Plain body)) ++ rest) < fuel)%nat ->
      tree_sitter_kdl_external_scanner_scan fuel
        (start (render (nest d (map Plain body)) ++ rest)) valid_symbols
      = Some (true, mkLexer (render (nest d (map Plain body)) ++ rest)
                            (length (render (nest d (map Plain body)))) MULTI_LINE_COMMENT)) /\
  (forall fuel l t,
      ahead l = ch_slash :: ch_star :: t ->
      scan_multiline_comment fuel l = loop comment_body fuel (mkComment false 1 (skip 2 l))) /\
  (forall k l t,
      ahead l = ch_slash :: ch_star :: t ->
      comment_body (mkComment false k l) = Continue (mkComment false (u32 (k + 1)) (skip 2 l))) /\
  (forall a k l t,
      ahead l = ch_star :: ch_slash :: t ->
      comment_body (mkComment a k l) = Continue (mkComment true k (skip 1 l)) /\
      comment_body (mkComment true k (skip 1 l))
      = if u32 (k - 1) =? 0
        then Return (true, set_result_symbol MULTI_LINE_COMMENT (skip 2 l))
        else Continue (mkComment false (u32 (k - 1)) (skip 2 l))) /\
  (forall s l',
      comment_body s = Return (true, l') ->
      after_star s = true /\ lookahead (c_lexer s) = ch_slash /\
      u32 (nesting_depth s - 1) = 0).
Proof.
  repeat apply conj.
  - exact well_nested_comment_scans.
  - intros [|d] body rest fuel v Hd V Hok Haddr Hfuel; [lia|].
    cbn [nest] in *. apply well_nested_comment_scans; auto.
    + apply plain_ok_nest; exact Hok.
    + rewrite <- (app_nil_r (nest d (map Plain body))).
      rewrite depth_after_nest by lia. reflexivity.
  - exact scan_multiline_comment_opened.
  - intros k l t A. destruct (ahead_cons _ _ _ A) as (L & A1 & _).
    destruct (ahead_cons _ _ _ A1) as (L1 & _ & _).
    apply comment_body_open; assumption.
  - intros a k l t A. destruct (ahead_cons _ _ _ A) as (L & A1 & _).
    destruct (ahead_cons _ _ _ A1) as (L1 & _ & _). split.
    + apply comment_body_star; exact L.
    + apply (comment_body_close k (advance l)); exact L1.
  - intros [a k l] l'. unfold comment_body; simpl.
    destruct (lookahead l =? 0); [discriminate|].
    destruct (lookahead l =? ch_star); [discriminate|].
    destruct (lookahead l =? ch_slash) eqn:E; [|discriminate].
    destruct a.
    + destruct (u32 (k - 1) =? 0) eqn:E0; [|discriminate].
      intros _. eqb_hyps. auto.
    + destruct (lookahead (advance l) =? ch_star); discriminate.
Qed.

(** The comment of the specification's example, [/* a /* b */ c */], followed
    by a line feed. *)
Lemma nested_comment_is_one_token_witness :
  tree_sitter_kdl_external_scanner_scan 19
    (start ([47; 42; 32; 97; 32; 47; 42; 32; 98; 32; 42; 47; 32; 99; 32; 42; 47] ++ [10]))
    (only MULTI_LINE_COMMENT)
  = Some (true,
          mkLexer ([47; 42; 32; 97; 32; 47; 42; 32; 98; 32; 42; 47; 32; 99; 32; 42; 47] ++ [10])
                  17 MULTI_LINE_COMMENT).
Proof.
  apply (proj1 nested_comment_is_one_token
           [Plain 32; Plain 97; Plain 32; Open; Plain 32; Plain 98; Plain 32; Close;
            Plain 32; Plain 99; Plain 32]
           [10] 19%nat (only MULTI_LINE_COMMENT)).
  - reflexivity.
  - reflexivity.
  - reflexivity.
  - unfold addressable; simpl; lia.
  - simpl; lia.
Defined.

Lemma unterminated_comment_run fuel l t n s' v :
  v MULTI_LINE_COMMENT = true ->
  ahead l = ch_slash :: ch_star :: t ->
  run comment_body n (mkComment false 1 (skip 2 l)) = Some s' ->
  lookahead (c_lexer s') = 0 ->
  (remaining l < fuel)%nat ->
  tree_sitter_kdl_external_scanner_scan fuel l v = Some (false, c_lexer s') /\
  result_symbol (c_lexer s') = result_symbol l.
Proof.
  intros V A Hrun L0 Hf.
  destruct (ahead_cons _ _ _ A) as (L & _ & _).
  rewrite scan_dispatch_comment by assumption.
  assert (E : scan_multiline_comment fuel l = Some (false, c_lexer s')).
  { rewrite (scan_multiline_comment_opened _ _ _ A).
    apply (loop_from_run comment_body n _ s'); [exact Hrun| |].
    - destruct s' as [a k l']; apply comment_body_end; exact L0.
    - rewrite <- (scan_multiline_comment_opened _ _ _ A).
      apply scan_multiline_comment_total; exact Hf. }
  split; [exact E|].
  destruct (scan_multiline_comment_result _ _ _ _ E) as (_ & _ & F). apply F; reflexivity.
Qed.

(** C7: a comment that is opened and is still open when the scan meets the
    end of the input does not match: the scan returns failure at that point
    and reports no kind.  So does every text made of an opener and pieces
    that never bring the depth back to 0: the scan reads it to its end and
    fails. *)
Theorem unterminated_comment_fails :
  (forall (fuel : nat) (lexer : TSLexer) (t : list Z) (n : nat) (s' : CommentState)
          (valid_symbols : ValidSymbols),
      valid_symbols MULTI_LINE_COMMENT = true ->
      ahead lexer = ch_slash :: ch_star :: t ->
      run comment_body n (mkComment false 1 (skip 2 lexer)) = Some s' ->
      lookahead (c_lexer s') = 0 ->
      (remaining lexer < fuel)%nat ->
      tree_sitter_kdl_external_scanner_scan fuel lexer valid_symbols
      = Some (false, c_lexer s') /\
      result_symbol (c_lexer s') = result_symbol lexer) /\
  (forall (ps : list CommentPiece) (k : nat) (fuel : nat) (valid_symbols : ValidSymbols),
      valid_symbols MULTI_LINE_COMMENT = true ->
      forallb plain_ok ps = true ->
      depth_after 1 ps = Some k ->
      addressable (render (Open :: ps)) ->
      (length (render (Open :: ps)) < fuel)%nat ->
      tree_sitter_kdl_external_scanner_scan fuel (start (render (Open :: ps))) valid_symbols
      = Some (false, mkLexer (render (Open :: ps)) (length (render (Open :: ps))) _EOF)).
Proof.
  split; [exact unterminated_comment_run|].
  intros ps k fuel v V Hok Hd Haddr Hfuel.
  set (text := render (Open :: ps)) in *.
  assert (A : ahead (start text) = ch_slash :: ch_star :: render ps ++ []).
  { rewrite ahead_start, app_nil_r. reflexivity. }
  destruct (ahead_cons _ _ _ A) as (_ & A1 & _).
  destruct (ahead_cons _ _ _ A1) as (_ & A2 & _).
  assert (Hlen : (length ps + 2 <= length text)%nat).
  { unfold text. cbn [render flat_map]. rewrite length_app.
    pose proof (length_render_le ps). simpl. unfold render in *. lia. }
  destruct (comment_run_pieces ps 1 k (skip 2 (start text)) [] Hok Hd (le_n _)) as [n Hn].
  { unfold addressable in Haddr. lia. }
  { exact A2. }
  pose proof (ahead_skip_app (render ps) _ _ A2) as A3.
  destruct (ahead_nil _ A3) as [L0 _].
  destruct (unterminated_comment_run fuel (start text) _ n _ v V A Hn L0) as [E _].
  { unfold remaining, start; cbn [input pos]. lia. }
  rewrite E. f_equal. f_equal. unfold skip, start; cbn [c_lexer input pos result_symbol].
  f_equal. unfold text, render. cbn [flat_map]. rewrite length_app. simpl. lia.
Qed.

(** The specification's example [/* no close]. *)
Lemma unterminated_comment_fails_witness :
  tree_sitter_kdl_external_scanner_scan 12
    (start [47; 42; 32; 110; 111; 32; 99; 108; 111; 115; 101]) (only MULTI_LINE_COMMENT)
  = Some (false, mkLexer [47; 42; 32; 110; 111; 32; 99; 108; 111; 115; 101] 11 _EOF).
Proof.
  apply (proj2 unterminated_comment_fails
           [Plain 32; Plain 110; Plain 111; Plain 32; Plain 99; Plain 108; Plain 111;
            Plain 115; Plain 101] 1%nat 12%nat (only MULTI_LINE_COMMENT)).
  - reflexivity.
  - reflexivity.
  - reflexivity.
  - unfold addressable; simpl; lia.
  - simpl; lia.
Defined.

(** ** Raw strings: what a scan steps over *)

Lemma span_refl P l : span P l l.
Proof. unfold span; repeat split; auto; intros; lia. Qed.

Lemma span_trans P l1 l2 l3 : span P l1 l2 -> span P l2 l3 -> span P l1 l3.
Proof.
  unfold span; intros (Hi & Hp & Hs) (Hi' & Hp' & Hs'). rewrite Hi in *.
  split; [congruence|]. split; [lia|]. intros i Hr.
  destruct (Nat.lt_ge_cases i (pos l2)); [apply Hs|apply Hs']; lia.
Qed.

Lemma span_advance (P : Z -> Prop) l : P (lookahead l) -> span P l (advance l).
Proof.
  unfold span, lookahead; simpl; intros H. repeat split; auto.
  intros i Hr. replace i with (pos l) by lia. exact H.
Qed.

Lemma span_weaken (P Q : Z -> Prop) l l' :
  (forall c, P c -> Q c) -> span P l l' -> span Q l l'.
Proof. unfold span; intros H (Hi & Hp & Hs); repeat split; auto. Qed.

Lemma try_consume_hashes_from_span : forall turns l,
  span (fun c => c = ch_hash) l (snd (try_consume_hashes_from turns l)).
Proof.
  induction turns as [|n IH]; intros l; simpl; [apply span_refl|].
  destruct (lookahead l =? ch_hash) eqn:E; simpl; [|apply span_refl].
  apply Z.eqb_eq in E. eapply span_trans; [apply span_advance; exact E|apply IH].
Qed.

Lemma single_line_body_span hashes l :
  match single_line_body hashes l with
  | Continue l' => span on_one_line l l'
  | Return (_, l') => span on_one_line l l'
  end.
Proof.
  unfold single_line_body.
  destruct (eof l || (lookahead l =? 0)) eqn:E0; [apply span_refl|].
  destruct (is_newline (lookahead l)) eqn:N; [apply span_refl|].
  eqb_hyps.
  assert (S1 : span on_one_line l (advance l)).
  { apply span_advance. split; assumption. }
  destruct (negb (lookahead l =? ch_quote)); [exact S1|].
  pose proof (try_consume_hashes_from_span (Z.to_nat hashes) (advance l)) as S2.
  fold (try_consume_hashes (advance l) hashes) in S2.
  assert (S3 : span on_one_line l (snd (try_consume_hashes (advance l) hashes))).
  { eapply span_trans; [exact S1|]. eapply span_weaken; [|exact S2].
    intros c ->; split; [discriminate|reflexivity]. }
  destruct (try_consume_hashes (advance l) hashes) as [[|] l1]; exact S3.
Qed.

Lemma single_line_match_span hashes fuel l b l' :
  scan_raw_string_single_line fuel l hashes = Some (b, l') -> span on_one_line l l'.
Proof.
  apply (loop_inv (single_line_body hashes)
           (fun l1 => span on_one_line l l1) (fun r => span on_one_line l (snd r))).
  - intros s s' I H. pose proof (single_line_body_span hashes s) as P. rewrite H in P.
    eapply span_trans; eassumption.
  - intros s [b1 l1] I H. pose proof (single_line_body_span hashes s) as P. rewrite H in P.
    simpl. eapply span_trans; eassumption.
  - apply span_refl.
Qed.

Lemma body_char_spec c :
  body_char c = true -> c <> 0 /\ is_newline c = false /\ c <> ch_quote.
Proof.
  unfold body_char; intros H. apply andb_true_iff in H; destruct H as [H H3].
  apply andb_true_iff in H; destruct H as [H1 H2]. eqb_hyps. auto.
Qed.

Lemma single_line_body_char hashes l c t :
  ahead l = c :: t -> body_char c = true ->
  single_line_body hashes l = Continue (advance l).
Proof.
  intros A H. destruct (ahead_cons _ _ _ A) as (L & _ & E).
  destruct (body_char_spec _ H) as (H0 & H1 & H2).
  unfold single_line_body. rewrite E, L, H1.
  apply Z.eqb_neq in H0, H2. rewrite H0, H2. reflexivity.
Qed.

Lemma single_line_body_stop hashes l :
  lookahead l = 0 \/ is_newline (lookahead l) = true ->
  single_line_body hashes l = Return (false, l).
Proof.
  intros [H|H]; unfold single_line_body.
  - rewrite H. rewrite orb_true_r. reflexivity.
  - rewrite H. destruct (eof l || (lookahead l =? 0)); reflexivity.
Qed.

Lemma single_line_run_body hashes : forall body l rest,
  forallb body_char body = true ->
  ahead l = body ++ rest ->
  run (single_line_body hashes) (length body) l = Some (skip (length body) l).
Proof.
  induction body as [|c body IH]; intros l rest Hok A.
  - simpl. rewrite skip_0. reflexivity.
  - simpl in Hok. apply andb_true_iff in Hok; destruct Hok as [Hc Hok].
    cbn [length run]. rewrite (single_line_body_char _ _ _ _ A Hc).
    destruct (ahead_cons _ _ _ A) as (_ & A1 & _).
    rewrite (IH _ _ Hok A1), skip_advance. reflexivity.
Qed.

(** C5: the single-line body loop never matches across a line break or the
    end of the input: whenever it matches, no code point it went over is a
    newline or the sentinel; when the text ahead runs, without a quote, into
    a newline, the sentinel or the end of the input, it fails there; and
    with a newline or the sentinel anywhere ahead it returns, and any match
    it returns ends before that place. *)
Theorem single_line_never_spans_newline :
  (forall fuel lexer hashes lexer',
      scan_raw_string_single_line fuel lexer hashes = Some (true, lexer') ->
      forall i, (pos lexer <= i < pos lexer')%nat ->
                is_newline (nth i (input lexer) 0) = false /\ nth i (input lexer) 0 <> 0) /\
  (forall fuel lexer hashes,
      (1 <= fuel)%nat ->
      is_newline (lookahead lexer) = true \/ eof lexer = true \/ lookahead lexer = 0 ->
      scan_raw_string_single_line fuel lexer hashes = Some (false, lexer)) /\
  (forall fuel lexer hashes body rest,
      ahead lexer = body ++ rest ->
      forallb body_char body = true ->
      is_newline (hd 0 rest) = true \/ hd 0 rest = 0 ->
      (length body < fuel)%nat ->
      scan_raw_string_single_line fuel lexer hashes
      = Some (false, skip (length body) lexer)) /\
  (forall fuel lexer hashes before nl rest,
      ahead lexer = before ++ nl :: rest ->
      is_newline nl = true \/ nl = 0 ->
      (remaining lexer < fuel)%nat ->
      exists b lexer',
        scan_raw_string_single_line fuel lexer hashes = Some (b, lexer') /\
        (b = true -> (pos lexer' <= pos lexer + length before)%nat)).
Proof.
  repeat apply conj.
  4:{ intros fuel l h before nl rest A Hnl Hf.
      destruct (single_line_total h fuel l Hf) as [[b l'] H].
      exists b, l'. split; [exact H|]. intros ->.
      destruct (single_line_match_span _ _ _ _ _ H) as (_ & _ & Hs).
      destruct (Nat.le_gt_cases (pos l') (pos l + length before)) as [Hle|Hgt]; [exact Hle|].
      exfalso. destruct (Hs (pos l + length before)%nat ltac:(lia)) as [H0 H1].
      pose proof (ahead_skip_app before _ _ A) as A1.
      destruct (ahead_cons _ _ _ A1) as (L & _ & _).
      unfold lookahead, skip in L; cbn [input pos] in L.
      rewrite (Nat.add_comm (length before)) in L. rewrite L in H0, H1.
      destruct Hnl; congruence. }
  - intros fuel l h l' H i Hr.
    destruct (single_line_match_span _ _ _ _ _ H) as (_ & _ & Hs).
    destruct (Hs i Hr) as [H0 H1]. split; assumption.
  - intros [|fuel] l h Hf H; [lia|].
    apply loop_return. apply single_line_body_stop.
    destruct H as [H|[H|H]]; auto. left; apply eof_lookahead; exact H.
  - intros fuel l h body rest A Hok Hrest Hf.
    pose proof (single_line_run_body h body l rest Hok A) as R.
    replace fuel with (length body + (fuel - length body))%nat by lia.
    unfold scan_raw_string_single_line. rewrite (run_loop _ _ _ _ _ R).
    destruct (fuel - length body)%nat as [|f] eqn:E; [lia|].
    apply loop_return. apply single_line_body_stop.
    pose proof (ahead_skip_app body _ _ A) as A1.
    destruct rest as [|c rest].
    + left. apply ahead_nil; exact A1.
    + destruct (ahead_cons _ _ _ A1) as (L & _ & _). rewrite L. simpl in Hrest.
      destruct Hrest; auto.
Qed.

Lemma single_line_never_spans_newline_witness :
  scan_raw_string_single_line 5 (mkLexer [35; 34; 97; 98; 10; 99; 34; 35] 2 _EOF) 1
  = Some (false, skip 2 (mkLexer [35; 34; 97; 98; 10; 99; 34; 35] 2 _EOF)).
Proof.
  apply (proj1 (proj2 (proj2 single_line_never_spans_newline)) 5%nat
           (mkLexer [35; 34; 97; 98; 10; 99; 34; 35] 2 _EOF) 1 [97; 98] [10; 99; 34; 35]).
  - reflexivity.
  - reflexivity.
  - left; reflexivity.
  - simpl; lia.
Defined.

(** ** Raw strings: runs of number signs *)

Lemma ahead_hd l t : ahead l = t -> lookahead l = hd 0 t.
Proof.
  destruct t as [|c t]; intros A.
  - apply ahead_nil; exact A.
  - apply (ahead_cons _ _ _ A).
Qed.

Lemma count_hashes_run : forall N h l t fuel,
  ahead l = repeat ch_hash N ++ t ->
  hd 0 t <> ch_hash ->
  0 <= h -> h + Z.of_nat N < 2 ^ 32 ->
  (N < fuel)%nat ->
  loop count_hashes_body fuel (h, l) = Some (h + Z.of_nat N, skip N l).
Proof.
  induction N as [|N IH]; intros h l t fuel A Ht H0 Hb Hf;
    (destruct fuel as [|fuel]; [lia|]).
  - simpl in A. cbn [loop count_hashes_body].
    rewrite (ahead_hd _ _ A). apply Z.eqb_neq in Ht. rewrite Ht.
    rewrite skip_0, Z.add_0_r. reflexivity.
  - cbn [repeat app] in A. destruct (ahead_cons _ _ _ A) as (L & A1 & _).
    cbn [loop count_hashes_body]. rewrite L, Z.eqb_refl.
    rewrite u32_small by lia.
    rewrite (IH (h + 1) (advance l) t fuel A1 Ht) by lia.
    rewrite skip_advance. do 2 f_equal. lia.
Qed.

Lemma try_consume_hashes_from_enough : forall n l m t,
  ahead l = repeat ch_hash m ++ t -> (n <= m)%nat ->
  try_consume_hashes_from n l = (true, skip n l).
Proof.
  induction n as [|n IH]; intros l m t A Hle; simpl.
  - rewrite skip_0; reflexivity.
  - destruct m as [|m]; [lia|]. cbn [repeat app] in A.
    destruct (ahead_cons _ _ _ A) as (L & A1 & _). rewrite L, Z.eqb_refl. simpl.
    rewrite (IH _ m t A1) by lia. rewrite skip_advance. reflexivity.
Qed.

Lemma try_consume_hashes_from_short : forall n l m t,
  ahead l = repeat ch_hash m ++ t -> hd 0 t <> ch_hash -> (m < n)%nat ->
  try_consume_hashes_from n l = (false, skip m l).
Proof.
  induction n as [|n IH]; intros l m t A Ht Hlt; [lia|]. simpl.
  destruct m as [|m].
  - simpl in A. rewrite (ahead_hd _ _ A). apply Z.eqb_neq in Ht. rewrite Ht. simpl.
    rewrite skip_0. reflexivity.
  - cbn [repeat app] in A.
    destruct (ahead_cons _ _ _ A) as (L & A1 & _). rewrite L, Z.eqb_refl. simpl.
    rewrite (IH _ m t A1 Ht) by lia. rewrite skip_advance. reflexivity.
Qed.

(** The single-line loop at a quote: a close, or more body. *)
Lemma single_line_body_close (N : nat) l m t :
  ahead l = ch_quote :: repeat ch_hash m ++ t -> (N <= m)%nat ->
  single_line_body (Z.of_nat N) l
  = Return (true, set_result_symbol RAW_STRING (skip (S N) l)).
Proof.
  intros A Hle. destruct (ahead_cons _ _ _ A) as (L & A1 & E).
  unfold single_line_body. rewrite E, L. simpl.
  unfold try_consume_hashes. rewrite Nat2Z.id.
  rewrite (try_consume_hashes_from_enough _ _ _ _ A1 Hle), skip_advance. reflexivity.
Qed.

Lemma single_line_body_absorb (N : nat) l m t :
  ahead l = ch_quote :: repeat ch_hash m ++ t -> hd 0 t <> ch_hash -> (m < N)%nat ->
  single_line_body (Z.of_nat N) l = Continue (skip (S m) l).
Proof.
  intros A Ht Hlt. destruct (ahead_cons _ _ _ A) as (L & A1 & E).
  unfold single_line_body. rewrite E, L. simpl.
  unfold try_consume_hashes. rewrite Nat2Z.id.
  rewrite (try_consume_hashes_from_short _ _ _ _ A1 Ht Hlt), skip_advance. reflexivity.
Qed.

(** From the entry of [scan_raw_string] to the single-line loop. *)
Lemma scan_raw_string_to_single_line (N : nat) l c t fuel :
  (1 <= N)%nat -> Z.of_nat N < 2 ^ 32 -> (N < fuel)%nat ->
  ahead l = repeat ch_hash N ++ ch_quote :: c :: t ->
  c <> ch_quote ->
  scan_raw_string fuel l = scan_raw_string_single_line fuel (skip (S N) l) (Z.of_nat N).
Proof.
  intros H1 Hb Hf A Hc. unfold scan_raw_string.
  assert (L : lookahead l = ch_hash).
  { destruct N as [|N]; [lia|]. cbn [repeat app] in A. apply (ahead_cons _ _ _ A). }
  rewrite L, Z.eqb_refl. cbn [negb].
  rewrite (count_hashes_run N 0 l _ fuel A) by (simpl; try discriminate; lia).
  cbn [Z.add].
  pose proof (ahead_skip_app (repeat ch_hash N) l _ A) as A1.
  rewrite repeat_length in A1.
  destruct (ahead_cons _ _ _ A1) as (L1 & A2 & _).
  destruct (ahead_cons _ _ _ A2) as (L2 & _ & _).
  rewrite L1, Z.eqb_refl. cbn [negb]. rewrite L2.
  apply Z.eqb_neq in Hc. rewrite Hc. reflexivity.
Qed.

Lemma skip_start n text : skip n (start text) = mkLexer text n _EOF.
Proof. unfold skip, start; simpl. f_equal. lia. Qed.

Lemma skip_mk n text p k : skip n (mkLexer text p k) = mkLexer text (n + p) k.
Proof. reflexivity. Qed.

Lemma length_single_line_text N body M :
  length (single_line_text N body M) = (N + 1 + length body + 1 + M)%nat.
Proof.
  unfold single_line_text. rewrite length_app, repeat_length. cbn [length].
  rewrite length_app. cbn [length]. rewrite repeat_length. lia.
Qed.

Lemma single_line_text_scan (N M : nat) (body : list Z) (fuel : nat) (v : ValidSymbols) :
  (1 <= N)%nat ->
  v RAW_STRING = true ->
  body <> [] ->
  forallb body_char body = true ->
  addressable (single_line_text N body M) ->
  (length (single_line_text N body M) < fuel)%nat ->
  tree_sitter_kdl_external_scanner_scan fuel (start (single_line_text N body M)) v
  = if (N <=? M)%nat
    then Some (true, mkLexer (single_line_text N body M)
                             (N + 1 + length body + 1 + N) RAW_STRING)
    else Some (false, mkLexer (single_line_text N body M)
                              (length (single_line_text N body M)) _EOF).
Proof.
  intros HN V Hne Hok Haddr Hfuel.
  pose proof (length_single_line_text N body M) as Hlen.
  set (text := single_line_text N body M) in *.
  unfold addressable in Haddr.
  destruct body as [|c body']; [congruence|]. set (body := c :: body') in *.
  assert (Hc : c <> ch_quote).
  { simpl in Hok. apply andb_true_iff in Hok. apply (body_char_spec c), Hok. }
  assert (A : ahead (start text) = repeat ch_hash N ++ ch_quote :: c :: (body' ++ ch_quote :: repeat ch_hash M)).
  { reflexivity. }
  assert (L : lookahead (start text) = ch_hash).
  { destruct N as [|N']; [lia|]. cbn [repeat app] in A. apply (ahead_cons _ _ _ A). }
  rewrite scan_dispatch_raw by assumption.
  rewrite (scan_raw_string_to_single_line N _ c _ fuel HN ltac:(lia) ltac:(lia) A Hc).
  rewrite skip_start.
  assert (A1 : ahead (mkLexer text (S N) _EOF) = body ++ (ch_quote :: repeat ch_hash M ++ [])).
  { pose proof (ahead_skip_app (repeat ch_hash N ++ [ch_quote]) (start text)
                  (body ++ ch_quote :: repeat ch_hash M ++ [])) as P.
    rewrite length_app, repeat_length, skip_start in P. cbn [length] in P.
    replace (N + 1)%nat with (S N) in P by lia. apply P.
    rewrite ahead_start, <- app_assoc, app_nil_r. reflexivity. }
  pose proof (single_line_run_body (Z.of_nat N) body _ _ Hok A1) as R.
  pose proof (ahead_skip_app body _ _ A1) as A2. rewrite skip_mk in R, A2.
  assert (T : exists r, scan_raw_string_single_line fuel (mkLexer text (S N) _EOF) (Z.of_nat N) = Some r).
  { apply single_line_total. unfold remaining; cbn [input pos]. lia. }
  destruct (N <=? M)%nat eqn:E.
  - apply Nat.leb_le in E.
    apply (loop_from_run _ _ _ _ _ fuel R); [|exact T].
    rewrite (single_line_body_close N _ M [] A2 E).
    do 2 f_equal. unfold set_result_symbol, skip; cbn [input pos]. f_equal. lia.
  - apply Nat.leb_gt in E.
    assert (R2 : run (single_line_body (Z.of_nat N)) (length body + 1) (mkLexer text (S N) _EOF)
                 = Some (mkLexer text (length text) _EOF)).
    { eapply run_app; [exact R|]. cbn [run].
      rewrite (single_line_body_absorb N _ M [] A2) by (simpl; try discriminate; lia).
      rewrite skip_mk. do 2 f_equal. lia. }
    apply (loop_from_run _ _ _ _ _ fuel R2); [|exact T].
    apply single_line_body_stop. left. unfold lookahead; cbn [input pos].
    apply nth_overflow. lia.
Qed.

(** C1 (as the code has it): for every hash count [N >= 1], a text of [N]
    number signs, a quoted body without quote, newline or sentinel (such as
    [abc]) and [M] closing number signs is recognized as one raw-string token
    spanning the whole text if and only if [M = N].  With [M > N] the token
    ends after the first [N] closing number signs; with [M < N] the quote and
    the shorter run are taken as body, the loop goes on and the scan fails
    only at the end of the input. *)
Theorem single_line_raw_string_hash_counts
  (N M : nat) (body : list Z) (fuel : nat) (valid_symbols : ValidSymbols) :
  (1 <= N)%nat ->
  valid_symbols RAW_STRING = true ->
  body <> [] ->
  forallb body_char body = true ->
  addressable (single_line_text N body M) ->
  (length (single_line_text N body M) < fuel)%nat ->
  (outcome (tree_sitter_kdl_external_scanner_scan fuel
              (start (single_line_text N body M)) valid_symbols)
   = Some (true, length (single_line_text N body M), RAW_STRING)
   <-> M = N) /\
  ((N <= M)%nat ->
   tree_sitter_kdl_external_scanner_scan fuel (start (single_line_text N body M)) valid_symbols
   = Some (true, mkLexer (single_line_text N body M)
                         (N + 1 + length body + 1 + N) RAW_STRING)) /\
  ((M < N)%nat ->
   tree_sitter_kdl_external_scanner_scan fuel (start (single_line_text N body M)) valid_symbols
   = Some (false, mkLexer (single_line_text N body M)
                          (length (single_line_text N body M)) _EOF)) /\
  (forall lexer t,
      (M < N)%nat ->
      ahead lexer = ch_quote :: repeat ch_hash M ++ t -> hd 0 t <> ch_hash ->
      single_line_body (Z.of_nat N) lexer = Continue (skip (S M) lexer)).
Proof.
  intros HN V Hne Hok Haddr Hfuel.
  pose proof (single_line_text_scan N M body fuel valid_symbols HN V Hne Hok Haddr Hfuel) as S.
  pose proof (length_single_line_text N body M) as Hlen.
  split; [|split; [|split]].
  - rewrite S. destruct (N <=? M)%nat eqn:E; cbn [outcome pos result_symbol].
    + apply Nat.leb_le in E. split.
      * intros H; injection H as H. lia.
      * intros ->. do 2 f_equal. f_equal. lia.
    + apply Nat.leb_gt in E. split; [discriminate|lia].
  - intros E. apply Nat.leb_le in E. rewrite S, E. reflexivity.
  - intros E. apply Nat.leb_gt in E. rewrite S, E. reflexivity.
  - intros l t E A Ht. apply (single_line_body_absorb N l M t A Ht E).
Qed.

(** The text of [##], a quoted [abc] and [#]: the closer is one sign short. *)
Lemma single_line_raw_string_hash_counts_witness :
  tree_sitter_kdl_external_scanner_scan 9 (start (single_line_text 2 [97; 98; 99] 1))
    (only RAW_STRING)
  = Some (false, mkLexer (single_line_text 2 [97; 98; 99] 1)
                         (length (single_line_text 2 [97; 98; 99] 1)) _EOF).
Proof.
  apply (single_line_raw_string_hash_counts 2 1 [97; 98; 99] 9 (only RAW_STRING)).
  - lia.
  - reflexivity.
  - discriminate.
  - reflexivity.
  - unfold addressable; simpl; lia.
  - simpl; lia.
  - lia.
Defined.

(** With no number sign at all, the quoted [abc] is not a raw string: the
    opening and closing counts are equal (both 0) and the scan reports no
    match, without moving. *)
Lemma raw_string_needs_a_number_sign :
  single_line_text 0 [97; 98; 99] 0 = [34; 97; 98; 99; 34] /\
  tree_sitter_kdl_external_scanner_scan 6 (start (single_line_text 0 [97; 98; 99] 0))
    (only RAW_STRING)
  = Some (false, start (single_line_text 0 [97; 98; 99] 0)) /\
  ~ (outcome (tree_sitter_kdl_external_scanner_scan 6
                (start (single_line_text 0 [97; 98; 99] 0)) (only RAW_STRING))
     = Some (true, length (single_line_text 0 [97; 98; 99] 0), RAW_STRING) <-> 0%nat = 0%nat).
Proof.
  split; [reflexivity|]. split; [reflexivity|].
  intros [_ H]. specialize (H eq_refl). discriminate H.
Qed.

(** ** Multi-line raw strings *)

Lemma multi_line_body_stop hashes l :
  lookahead l = 0 -> multi_line_body hashes l = Return (false, l).
Proof. intros H; unfold multi_line_body. rewrite H, orb_true_r. reflexivity. Qed.

Lemma multi_line_body_char hashes l c t :
  ahead l = c :: t -> c <> 0 -> c <> ch_quote ->
  multi_line_body hashes l
  = Continue (if is_newline c then consume_newline l else advance l).
Proof.
  intros A H0 Hq. destruct (ahead_cons _ _ _ A) as (L & _ & E).
  unfold multi_line_body. rewrite E, L.
  apply Z.eqb_neq in H0, Hq. rewrite H0, Hq. simpl.
  destruct (is_newline c); reflexivity.
Qed.

Lemma multi_line_body_one_quote hashes l t :
  ahead l = ch_quote :: t -> hd 0 t <> ch_quote ->
  multi_line_body hashes l = Continue (skip 1 l).
Proof.
  intros A Ht. destruct (ahead_cons _ _ _ A) as (L & A1 & E).
  unfold multi_line_body. rewrite E, L. simpl.
  rewrite (ahead_hd _ _ A1). apply Z.eqb_neq in Ht. rewrite Ht. reflexivity.
Qed.

Lemma multi_line_body_two_quotes hashes l t :
  ahead l = ch_quote :: ch_quote :: t -> hd 0 t <> ch_quote ->
  multi_line_body hashes l = Continue (skip 2 l).
Proof.
  intros A Ht. destruct (ahead_cons _ _ _ A) as (L & A1 & E).
  destruct (ahead_cons _ _ _ A1) as (L1 & A2 & _).
  unfold multi_line_body. rewrite E, L. simpl. rewrite L1. simpl.
  rewrite (ahead_hd _ _ A2). apply Z.eqb_neq in Ht. rewrite Ht. reflexivity.
Qed.

Lemma multi_line_body_close (N : nat) l m t :
  ahead l = three_quotes ++ repeat ch_hash m ++ t -> (N <= m)%nat ->
  multi_line_body (Z.of_nat N) l
  = Return (true, set_result_symbol RAW_STRING (skip (3 + N) l)).
Proof.
  intros A Hle. cbn [three_quotes app] in A.
  destruct (ahead_cons _ _ _ A) as (L & A1 & E).
  destruct (ahead_cons _ _ _ A1) as (L1 & A2 & _).
  destruct (ahead_cons _ _ _ A2) as (L2 & A3 & _).
  unfold multi_line_body. rewrite E, L. simpl. rewrite L1. simpl. rewrite L2. simpl.
  unfold try_consume_hashes. rewrite Nat2Z.id.
  rewrite (try_consume_hashes_from_enough _ _ _ _ A3 Hle), !skip_advance. reflexivity.
Qed.

Lemma multi_line_body_absorb (N : nat) l m t :
  ahead l = three_quotes ++ repeat ch_hash m ++ t -> hd 0 t <> ch_hash -> (m < N)%nat ->
  multi_line_body (Z.of_nat N) l = Continue (skip (3 + m) l).
Proof.
  intros A Ht Hlt. cbn [three_quotes app] in A.
  destruct (ahead_cons _ _ _ A) as (L & A1 & E).
  destruct (ahead_cons _ _ _ A1) as (L1 & A2 & _).
  destruct (ahead_cons _ _ _ A2) as (L2 & A3 & _).
  unfold multi_line_body. rewrite E, L. simpl. rewrite L1. simpl. rewrite L2. simpl.
  unfold try_consume_hashes. rewrite Nat2Z.id.
  rewrite (try_consume_hashes_from_short _ _ _ _ A3 Ht Hlt), !skip_advance. reflexivity.
Qed.

Lemma plain_body_tail c body : plain_body (c :: body) = true -> plain_body body = true.
Proof. simpl; intros H. apply andb_true_iff in H. apply H. Qed.

Lemma consume_newline_ahead l c t :
  ahead l = c :: t ->
  consume_newline l
  = if (c =? ch_cr) && (hd 0 t =? ch_lf) then skip 2 l else skip 1 l.
Proof.
  intros A. destruct (ahead_cons _ _ _ A) as (L & A1 & _).
  unfold consume_newline. rewrite L, (ahead_hd _ _ A1).
  destruct (c =? ch_cr); simpl; [|reflexivity].
  destruct (hd 0 t =? ch_lf); reflexivity.
Qed.

Lemma run_step {S R : Type} (body : S -> Step S R) s s1 k s' :
  body s = Continue s1 -> run body k s1 = Some s' -> run body (Datatypes.S k) s = Some s'.
Proof. intros H1 H2; simpl; rewrite H1; exact H2. Qed.

(** The multi-line loop walks over a plain body up to the closing quotes. *)
Lemma multi_line_run_body hashes : forall n body l rest,
  (length body <= n)%nat ->
  plain_body body = true ->
  ahead l = body ++ rest ->
  hd 0 rest = ch_quote ->
  exists k, run (multi_line_body hashes) k l = Some (skip (length body) l).
Proof.
  induction n as [|n IH]; intros body l rest Hlen Hok A Hrest.
  { destruct body; [|simpl in Hlen; lia]. exists 0%nat. simpl. rewrite skip_0. reflexivity. }
  destruct body as [|c b1].
  { exists 0%nat. simpl. rewrite skip_0. reflexivity. }
  assert (via : forall pre b',
             c :: b1 = pre ++ b' -> (1 <= length pre)%nat -> plain_body b' = true ->
             multi_line_body hashes l = Continue (skip (length pre) l) ->
             exists k, run (multi_line_body hashes) k l = Some (skip (length (c :: b1)) l)).
  { intros pre b' E Hpre Hok' Hstep.
    assert (Hl : length (c :: b1) = (length pre + length b')%nat)
      by (rewrite E, length_app; reflexivity).
    destruct (IH b' (skip (length pre) l) rest) as [k Hk]; auto.
    - simpl in Hlen, Hl. lia.
    - apply ahead_skip_app. rewrite A, E, <- app_assoc. reflexivity.
    - exists (S k). eapply run_step; [exact Hstep|]. rewrite Hk, skip_skip, Hl.
      do 2 f_equal. lia. }
  pose proof (plain_body_tail _ _ Hok) as Hok1.
  simpl in Hok. apply andb_true_iff in Hok; destruct Hok as [Hok _].
  apply andb_true_iff in Hok; destruct Hok as [H0 Hq]. eqb_hyps.
  destruct (c =? ch_quote) eqn:Ec.
  - apply Z.eqb_eq in Ec; subst c.
    destruct b1 as [|d b2]; [discriminate|].
    destruct (d =? ch_quote) eqn:Ed.
    + apply Z.eqb_eq in Ed; subst d.
      destruct b2 as [|e b3]; [discriminate|]. eqb_hyps.
      apply (via [ch_quote; ch_quote] (e :: b3)); [reflexivity|simpl; lia| |].
      * apply (plain_body_tail _ _ Hok1).
      * apply (multi_line_body_two_quotes _ _ _ A). exact Hq.
    + apply Z.eqb_neq in Ed.
      apply (via [ch_quote] (d :: b2)); [reflexivity|simpl; lia|exact Hok1|].
      apply (multi_line_body_one_quote _ _ _ A). exact Ed.
  - apply Z.eqb_neq in Ec. cbn [app] in A.
    pose proof (multi_line_body_char hashes _ _ _ A H0 Ec) as Hstep.
    destruct (is_newline c) eqn:N.
    + rewrite (consume_newline_ahead _ _ _ A) in Hstep.
      destruct ((c =? ch_cr) && (hd 0 (b1 ++ rest) =? ch_lf)) eqn:Ecr.
      * eqb_hyps. destruct b1 as [|d b2].
        { simpl in *. rewrite Hrest in *. discriminate. }
        apply (via [c; d] b2); [reflexivity|simpl; lia| |exact Hstep].
        apply (plain_body_tail _ _ Hok1).
      * apply (via [c] b1); [reflexivity|simpl; lia|exact Hok1|exact Hstep].
    + apply (via [c] b1); [reflexivity|simpl; lia|exact Hok1|exact Hstep].
Qed.

(** From the entry of [scan_raw_string] to what follows three quotes. *)
Lemma scan_raw_string_three_quotes (N : nat) l t fuel :
  (1 <= N)%nat -> Z.of_nat N < 2 ^ 32 -> (N < fuel)%nat ->
  ahead l = repeat ch_hash N ++ three_quotes ++ t ->
  scan_raw_string fuel l
  = if negb (is_newline (hd 0 t)) then Some (false, skip (N + 3) l)
    else scan_raw_string_multi_line fuel (consume_newline (skip (N + 3) l)) (Z.of_nat N).
Proof.
  intros H1 Hb Hf A. unfold scan_raw_string.
  assert (L : lookahead l = ch_hash).
  { destruct N as [|N']; [lia|]. cbn [repeat app] in A. apply (ahead_cons _ _ _ A). }
  rewrite L, Z.eqb_refl. cbn [negb].
  rewrite (count_hashes_run N 0 l _ fuel A) by (simpl; try discriminate; lia).
  cbn [Z.add].
  pose proof (ahead_skip_app (repeat ch_hash N) l _ A) as A1.
  rewrite repeat_length in A1. cbn [three_quotes app] in A1.
  destruct (ahead_cons _ _ _ A1) as (L1 & A2 & _).
  destruct (ahead_cons _ _ _ A2) as (L2 & A3 & _).
  destruct (ahead_cons _ _ _ A3) as (L3 & A4 & _).
  rewrite L1, Z.eqb_refl. cbn [negb]. rewrite L2, Z.eqb_refl.
  rewrite L3, Z.eqb_refl. cbn [negb].
  rewrite (ahead_hd _ _ A4).
  replace (advance (advance (advance (skip N l)))) with (skip (N + 3) l).
  - reflexivity.
  - unfold advance, skip; simpl. f_equal. lia.
Qed.

Lemma length_multi_line_text N nl body M :
  length (multi_line_text N nl body M) = (N + 3 + 1 + length body + 3 + M)%nat.
Proof.
  unfold multi_line_text, three_quotes.
  rewrite !length_app, !repeat_length. cbn [length].
  rewrite !length_app, repeat_length. cbn [length]. lia.
Qed.

Lemma multi_line_text_scan
  (N M : nat) (nl : Z) (body : list Z) (fuel : nat) (v : ValidSymbols) :
  (1 <= N)%nat ->
  v RAW_STRING = true ->
  is_newline nl = true ->
  plain_body body = true ->
  addressable (multi_line_text N nl body M) ->
  (length (multi_line_text N nl body M) < fuel)%nat ->
  tree_sitter_kdl_external_scanner_scan fuel (start (multi_line_text N nl body M)) v
  = if (N <=? M)%nat
    then Some (true, mkLexer (multi_line_text N nl body M)
                             (N + 3 + 1 + length body + 3 + N) RAW_STRING)
    else Some (false, mkLexer (multi_line_text N nl body M)
                              (length (multi_line_text N nl body M)) _EOF).
Proof.
  intros HN V Hnl Hok Haddr Hfuel.
  pose proof (length_multi_line_text N nl body M) as Hlen.
  set (text := multi_line_text N nl body M) in *.
  unfold addressable in Haddr.
  set (closer := three_quotes ++ repeat ch_hash M ++ []).
  assert (A : ahead (start text) = repeat ch_hash N ++ three_quotes ++ (nl :: body ++ closer)).
  { rewrite ahead_start. unfold text, multi_line_text, closer. rewrite app_nil_r. reflexivity. }
  assert (L : lookahead (start text) = ch_hash).
  { destruct N as [|N']; [lia|]. cbn [repeat app] in A. apply (ahead_cons _ _ _ A). }
  rewrite scan_dispatch_raw by assumption.
  rewrite (scan_raw_string_three_quotes N _ _ fuel HN ltac:(lia) ltac:(lia) A).
  cbn [hd]. rewrite Hnl. cbn [negb]. rewrite skip_start.
  assert (A1 : ahead (mkLexer text (N + 3) _EOF) = nl :: body ++ closer).
  { pose proof (ahead_skip_app (repeat ch_hash N ++ three_quotes) (start text)
                  (nl :: body ++ closer)) as P.
    rewrite length_app, repeat_length, skip_start in P. apply P.
    rewrite A, <- app_assoc. reflexivity. }
  assert (B : exists b' p0,
             plain_body b' = true /\ (p0 + length b' = N + 3 + 1 + length body)%nat /\
             consume_newline (mkLexer text (N + 3) _EOF) = mkLexer text p0 _EOF /\
             ahead (mkLexer text p0 _EOF) = b' ++ closer).
  { rewrite (consume_newline_ahead _ _ _ A1).
    destruct ((nl =? ch_cr) && (hd 0 (body ++ closer) =? ch_lf)) eqn:E.
    - eqb_hyps. destruct body as [|d b']; [discriminate|].
      exists b', (N + 3 + 2)%nat. split; [apply (plain_body_tail _ _ Hok)|].
      split; [simpl; lia|]. split; [rewrite skip_mk; f_equal; lia|].
      pose proof (ahead_skip_app [nl; d] _ _ A1) as P. rewrite skip_mk in P.
      replace (N + 3 + 2)%nat with (length [nl; d] + (N + 3))%nat by (simpl; lia). exact P.
    - exists body, (N + 3 + 1)%nat. split; [exact Hok|]. split; [lia|].
      split; [rewrite skip_mk; f_equal; lia|].
      pose proof (ahead_skip_app [nl] _ _ A1) as P. rewrite skip_mk in P.
      replace (N + 3 + 1)%nat with (length [nl] + (N + 3))%nat by (simpl; lia). exact P. }
  destruct B as (b' & p0 & Hok' & Hp0 & -> & A2).
  destruct (multi_line_run_body (Z.of_nat N) (length b') b' _ closer (le_n _) Hok' A2 eq_refl)
    as [k R].
  pose proof (ahead_skip_app b' _ _ A2) as A3. rewrite skip_mk in R, A3.
  assert (T : exists r, scan_raw_string_multi_line fuel (mkLexer text p0 _EOF) (Z.of_nat N) = Some r).
  { apply multi_line_total. unfold remaining; cbn [input pos]. lia. }
  destruct (N <=? M)%nat eqn:E.
  - apply Nat.leb_le in E.
    apply (loop_from_run _ _ _ _ _ fuel R); [|exact T].
    rewrite (multi_line_body_close N _ M [] A3 E).
    do 2 f_equal. unfold set_result_symbol, skip; cbn [input pos]. f_equal. lia.
  - apply Nat.leb_gt in E.
    assert (R2 : run (multi_line_body (Z.of_nat N)) (k + 1) (mkLexer text p0 _EOF)
                 = Some (mkLexer text (length text) _EOF)).
    { eapply run_app; [exact R|]. cbn [run].
      rewrite (multi_line_body_absorb N _ M [] A3) by (simpl; try discriminate; lia).
      rewrite skip_mk. do 2 f_equal. lia. }
    apply (loop_from_run _ _ _ _ _ fuel R2); [|exact T].
    apply multi_line_body_stop. unfold lookahead; cbn [input pos].
    apply nth_overflow. lia.
Qed.

(** C3 (as the code has it): for every hash count [N >= 1], newline [nl] and
    body whose quotes come alone or in pairs followed by another code point
    of the body, the text of [N] number signs, three quotes, [nl], the body,
    three quotes and [M] number signs is recognized as one raw-string token
    spanning the whole text if and only if [M = N]; with [M > N] the token
    ends after [N] closing number signs and with [M < N] the scan fails at
    the end of the input.  Inside the body a quote, or two, not followed by
    another quote is kept as body and the loop goes on right after it.  When
    what follows the three opening quotes is no newline, the scan fails
    there. *)
Theorem multi_line_raw_string_hash_counts
  (N M : nat) (nl : Z) (body : list Z) (fuel : nat) (valid_symbols : ValidSymbols) :
  (1 <= N)%nat ->
  valid_symbols RAW_STRING = true ->
  is_newline nl = true ->
  plain_body body = true ->
  addressable (multi_line_text N nl body M) ->
  (length (multi_line_text N nl body M) < fuel)%nat ->
  (outcome (tree_sitter_kdl_external_scanner_scan fuel
              (start (multi_line_text N nl body M)) valid_symbols)
   = Some (true, length (multi_line_text N nl body M), RAW_STRING)
   <-> M = N) /\
  ((N <= M)%nat ->
   tree_sitter_kdl_external_scanner_scan fuel (start (multi_line_text N nl body M)) valid_symbols
   = Some (true, mkLexer (multi_line_text N nl body M)
                         (N + 3 + 1 + length body + 3 + N) RAW_STRING)) /\
  ((M < N)%nat ->
   tree_sitter_kdl_external_scanner_scan fuel (start (multi_line_text N nl body M)) valid_symbols
   = Some (false, mkLexer (multi_line_text N nl body M)
                          (length (multi_line_text N nl body M)) _EOF)) /\
  (forall lexer t,
      ahead lexer = ch_quote :: t -> hd 0 t <> ch_quote ->
      multi_line_body (Z.of_nat N) lexer = Continue (skip 1 lexer)) /\
  (forall lexer t,
      ahead lexer = ch_quote :: ch_quote :: t -> hd 0 t <> ch_quote ->
      multi_line_body (Z.of_nat N) lexer = Continue (skip 2 lexer)) /\
  (forall t,
      is_newline (hd 0 t) = false ->
      tree_sitter_kdl_external_scanner_scan fuel
        (start (repeat ch_hash N ++ three_quotes ++ t)) valid_symbols
      = Some (false, mkLexer (repeat ch_hash N ++ three_quotes ++ t) (N + 3) _EOF)).
Proof.
  intros HN V Hnl Hok Haddr Hfuel.
  pose proof (multi_line_text_scan N M nl body fuel valid_symbols HN V Hnl Hok Haddr Hfuel) as S.
  pose proof (length_multi_line_text N nl body M) as Hlen.
  split; [|split; [|split; [|split; [|split]]]].
  - rewrite S. destruct (N <=? M)%nat eqn:E; cbn [outcome pos result_symbol].
    + apply Nat.leb_le in E. split.
      * intros H; injection H as H. lia.
      * intros ->. do 2 f_equal. f_equal. lia.
    + apply Nat.leb_gt in E. split; [discriminate|lia].
  - intros E. apply Nat.leb_le in E. rewrite S, E. reflexivity.
  - intros E. apply Nat.leb_gt in E. rewrite S, E. reflexivity.
  - intros l t. apply multi_line_body_one_quote.
  - intros l t. apply multi_line_body_two_quotes.
  - intros t Ht. unfold addressable in Haddr.
    assert (L : lookahead (start (repeat ch_hash N ++ three_quotes ++ t)) = ch_hash).
    { destruct N as [|N']; [lia|]. reflexivity. }
    rewrite scan_dispatch_raw by assumption.
    rewrite (scan_raw_string_three_quotes N _ t fuel HN) by (try reflexivity; lia).
    rewrite Ht. cbn [negb]. rewrite skip_start. reflexivity.
Qed.

(** One number sign, three quotes, a line feed, a body holding a lone quote
    and a pair of quotes, a line feed, three quotes and one number sign. *)
Lemma multi_line_raw_string_hash_counts_witness :
  tree_sitter_kdl_external_scanner_scan 17
    (start (multi_line_text 1 10 [97; 34; 98; 34; 34; 99; 10] 1)) (only RAW_STRING)
  = Some (true, mkLexer (multi_line_text 1 10 [97; 34; 98; 34; 34; 99; 10] 1) 16 RAW_STRING).
Proof.
  apply (multi_line_raw_string_hash_counts 1 1 10 [97; 34; 98; 34; 34; 99; 10] 17
           (only RAW_STRING)).
  - lia.
  - reflexivity.
  - reflexivity.
  - reflexivity.
  - unfold addressable; simpl; lia.
  - simpl; lia.
  - lia.
Defined.

(** Two texts closed by three quotes and as many number signs as opened them
    that the scan does not recognize: one opened by no number sign, and one
    whose body ends in a quote, so that four quotes come in a row. *)
Lemma multi_line_raw_string_not_recognized :
  (multi_line_text 0 10 [97; 10] 0 = [34; 34; 34; 10; 97; 10; 34; 34; 34] /\
   tree_sitter_kdl_external_scanner_scan 10 (start (multi_line_text 0 10 [97; 10] 0))
     (only RAW_STRING)
   = Some (false, start (multi_line_text 0 10 [97; 10] 0))) /\
  (multi_line_text 1 10 [97; 34] 1 = [35; 34; 34; 34; 10; 97; 34; 34; 34; 34; 35] /\
   tree_sitter_kdl_external_scanner_scan 12 (start (multi_line_text 1 10 [97; 34] 1))
     (only RAW_STRING)
   = Some (false, mkLexer (multi_line_text 1 10 [97; 34] 1) 11 _EOF)).
Proof. repeat split. Qed.

(** ** A NUL code point is the end of the input *)

Section Truncated.
Variables pre rest : list Z.
Local Abbreviation T := (truncated pre rest).

Lemma truncated_lookahead l1 l2 : T l1 l2 -> lookahead l1 = lookahead l2.
Proof.
  intros (I1 & I2 & P & B & _). unfold lookahead. rewrite I1, I2, P in *.
  destruct (Nat.eq_dec (pos l2) (length pre)) as [E|E].
  - rewrite E, nth_middle, nth_overflow by lia. reflexivity.
  - apply app_nth1. lia.
Qed.

Lemma truncated_stop l1 l2 :
  T l1 l2 -> eof l1 || (lookahead l1 =? 0) = eof l2 || (lookahead l2 =? 0).
Proof.
  intros H. rewrite (truncated_lookahead _ _ H).
  destruct (lookahead l2 =? 0) eqn:E; [rewrite !orb_true_r; reflexivity|].
  rewrite !orb_false_r. apply Z.eqb_neq, lookahead_nonzero_bound in E.
  destruct H as (I1 & I2 & P & B & _). unfold eof. rewrite I1, I2, P in *.
  rewrite length_app. cbn [length].
  destruct (Nat.leb_spec (length pre + S (length rest)) (pos l2));
    destruct (Nat.leb_spec (length pre) (pos l2)); try reflexivity; lia.
Qed.

Lemma truncated_advance l1 l2 :
  T l1 l2 -> lookahead l2 <> 0 -> T (advance l1) (advance l2).
Proof.
  intros (I1 & I2 & P & B & K) H. apply lookahead_nonzero_bound in H.
  unfold truncated; simpl. rewrite I2 in H. repeat split; auto; lia.
Qed.

Lemma truncated_set k l1 l2 :
  T l1 l2 -> T (set_result_symbol k l1) (set_result_symbol k l2).
Proof. intros (I1 & I2 & P & B & K). unfold truncated; simpl. auto. Qed.

Lemma truncated_hashes : forall n l1 l2,
  T l1 l2 ->
  same_verdict pre rest (try_consume_hashes_from n l1) (try_consume_hashes_from n l2).
Proof.
  induction n as [|n IH]; intros l1 l2 H; simpl; [split; auto|].
  rewrite (truncated_lookahead _ _ H).
  destruct (lookahead l2 =? ch_hash) eqn:E; simpl; [|split; auto].
  apply IH, truncated_advance; [exact H|]. apply Z.eqb_eq in E. rewrite E; discriminate.
Qed.

Lemma truncated_newline l1 l2 :
  T l1 l2 -> is_newline (lookahead l2) = true ->
  T (consume_newline l1) (consume_newline l2).
Proof.
  intros H N. apply is_newline_nonzero in N.
  pose proof (truncated_advance _ _ H N) as H1. unfold consume_newline.
  rewrite (truncated_lookahead _ _ H), (truncated_lookahead _ _ H1).
  destruct (lookahead l2 =? ch_cr); [|exact H1].
  destruct (lookahead (advance l2) =? ch_lf) eqn:E; [|exact H1].
  apply truncated_advance; [exact H1|]. apply Z.eqb_eq in E. rewrite E; discriminate.
Qed.

Lemma loop_same {S1 S2 R1 R2 : Type}
  (b1 : S1 -> Step S1 R1) (b2 : S2 -> Step S2 R2)
  (RS : S1 -> S2 -> Prop) (RR : R1 -> R2 -> Prop) :
  (forall s1 s2, RS s1 s2 -> same_step RS RR (b1 s1) (b2 s2)) ->
  forall fuel s1 s2, RS s1 s2 -> same_option RR (loop b1 fuel s1) (loop b2 fuel s2).
Proof.
  intros Hb; induction fuel as [|fuel IH]; intros s1 s2 H; simpl; [exact I|].
  specialize (Hb _ _ H). unfold same_step in Hb.
  destruct (b1 s1), (b2 s2); try contradiction; [apply IH|]; exact Hb.
Qed.

Lemma truncated_comment_body s1 s2 :
  same_comment_state pre rest s1 s2 ->
  same_step (same_comment_state pre rest) (same_verdict pre rest) (comment_body s1) (comment_body s2).
Proof.
  destruct s1 as [a1 k1 l1], s2 as [a2 k2 l2]. intros (Ha & Hk & H); simpl in *. subst a2 k2.
  unfold comment_body; cbn [c_lexer after_star nesting_depth].
  rewrite (truncated_lookahead _ _ H).
  destruct (lookahead l2 =? 0) eqn:E0; [split; auto|]. apply Z.eqb_neq in E0.
  pose proof (truncated_advance _ _ H E0) as H1.
  rewrite (truncated_lookahead _ _ H1).
  destruct (lookahead l2 =? ch_star);
    [split; [reflexivity|split; [reflexivity|exact H1]]|].
  destruct (lookahead l2 =? ch_slash);
    [|split; [reflexivity|split; [reflexivity|exact H1]]].
  destruct a1.
  - destruct (u32 (k1 - 1) =? 0).
    + split; [reflexivity|]. apply truncated_set; exact H1.
    + split; [reflexivity|split; [reflexivity|exact H1]].
  - destruct (lookahead (advance l2) =? ch_star) eqn:E;
      [|split; [reflexivity|split; [reflexivity|exact H1]]].
    split; [reflexivity|]. split; [reflexivity|]. simpl.
    apply truncated_advance; [exact H1|]. apply Z.eqb_eq in E. rewrite E; discriminate.
Qed.

Lemma truncated_single_line_body hashes l1 l2 :
  T l1 l2 ->
  same_step T (same_verdict pre rest) (single_line_body hashes l1) (single_line_body hashes l2).
Proof.
  intros H. unfold single_line_body.
  rewrite (truncated_stop _ _ H), (truncated_lookahead _ _ H).
  destruct (eof l2 || (lookahead l2 =? 0)) eqn:E0; [split; auto|].
  apply orb_false_iff in E0; destruct E0 as [_ E0]; apply Z.eqb_neq in E0.
  pose proof (truncated_advance _ _ H E0) as H1.
  destruct (is_newline (lookahead l2)); [split; auto|].
  destruct (negb (lookahead l2 =? ch_quote)); [exact H1|].
  pose proof (truncated_hashes (Z.to_nat hashes) _ _ H1) as [Hb Hl].
  unfold try_consume_hashes.
  destruct (try_consume_hashes_from _ (advance l1)) as [b1 m1],
           (try_consume_hashes_from _ (advance l2)) as [b2 m2]; simpl in *. subst b2.
  destruct b1; [|exact Hl]. split; [reflexivity|]. apply truncated_set; exact Hl.
Qed.

Lemma truncated_multi_line_body hashes l1 l2 :
  T l1 l2 ->
  same_step T (same_verdict pre rest) (multi_line_body hashes l1) (multi_line_body hashes l2).
Proof.
  intros H. unfold multi_line_body.
  rewrite (truncated_stop _ _ H), (truncated_lookahead _ _ H).
  destruct (eof l2 || (lookahead l2 =? 0)) eqn:E0; [split; auto|].
  apply orb_false_iff in E0; destruct E0 as [_ E0]; apply Z.eqb_neq in E0.
  pose proof (truncated_advance _ _ H E0) as H1.
  destruct (negb (lookahead l2 =? ch_quote)).
  { destruct (is_newline (lookahead l2)) eqn:N; [|exact H1].
    apply truncated_newline; assumption. }
  rewrite (truncated_lookahead _ _ H1).
  destruct (lookahead (advance l2) =? ch_quote) eqn:Q2; [|exact H1]. cbn [negb].
  assert (H2 : T (advance (advance l1)) (advance (advance l2))).
  { apply truncated_advance; [exact H1|]. apply Z.eqb_eq in Q2. rewrite Q2; discriminate. }
  rewrite (truncated_lookahead _ _ H2).
  destruct (lookahead (advance (advance l2)) =? ch_quote) eqn:Q3; [|exact H2]. cbn [negb].
  assert (H3 : T (advance (advance (advance l1))) (advance (advance (advance l2)))).
  { apply truncated_advance; [exact H2|]. apply Z.eqb_eq in Q3. rewrite Q3; discriminate. }
  pose proof (truncated_hashes (Z.to_nat hashes) _ _ H3) as [Hb Hl].
  unfold try_consume_hashes.
  destruct (try_consume_hashes_from _ (advance (advance (advance l1)))) as [b1 m1],
           (try_consume_hashes_from _ (advance (advance (advance l2)))) as [b2 m2];
    simpl in *. subst b2.
  destruct b1; [|exact Hl]. split; [reflexivity|]. apply truncated_set; exact Hl.
Qed.

Lemma truncated_count_hashes_body s1 s2 :
  same_count pre rest s1 s2 ->
  same_step (same_count pre rest) (same_count pre rest) (count_hashes_body s1) (count_hashes_body s2).
Proof.
  destruct s1 as [h1 l1], s2 as [h2 l2]. intros [Hh H]; simpl in *. subst h2.
  rewrite (truncated_lookahead _ _ H).
  destruct (lookahead l2 =? ch_hash) eqn:E; [|split; auto].
  split; [reflexivity|]. simpl.
  apply truncated_advance; [exact H|]. apply Z.eqb_eq in E. rewrite E; discriminate.
Qed.

Lemma truncated_scan_multiline_comment fuel l1 l2 :
  T l1 l2 ->
  same_option (same_verdict pre rest)
    (scan_multiline_comment fuel l1) (scan_multiline_comment fuel l2).
Proof.
  intros H. unfold scan_multiline_comment.
  rewrite (truncated_lookahead _ _ H).
  destruct (lookahead l2 =? ch_slash) eqn:E1; cbn [negb]; [|split; auto].
  assert (H1 : T (advance l1) (advance l2)).
  { apply truncated_advance; [exact H|]. apply Z.eqb_eq in E1. rewrite E1; discriminate. }
  rewrite (truncated_lookahead _ _ H1).
  destruct (lookahead (advance l2) =? ch_star) eqn:E2; cbn [negb]; [|split; auto].
  apply (loop_same comment_body comment_body (same_comment_state pre rest)).
  - apply truncated_comment_body.
  - split; [reflexivity|split; [reflexivity|]]. simpl.
    apply truncated_advance; [exact H1|]. apply Z.eqb_eq in E2. rewrite E2; discriminate.
Qed.

Lemma truncated_scan_raw_string fuel l1 l2 :
  T l1 l2 ->
  same_option (same_verdict pre rest) (scan_raw_string fuel l1) (scan_raw_string fuel l2).
Proof.
  intros H. unfold scan_raw_string.
  rewrite (truncated_lookahead _ _ H).
  destruct (negb (lookahead l2 =? ch_hash)); [split; auto|].
  pose proof (loop_same count_hashes_body count_hashes_body
                (same_count pre rest) (same_count pre rest)
                truncated_count_hashes_body fuel (0, l1) (0, l2)
                (conj eq_refl H)) as C.
  destruct (loop count_hashes_body fuel (0, l1)) as [[h1 m1]|],
           (loop count_hashes_body fuel (0, l2)) as [[h2 m2]|];
    try contradiction; [|exact I].
  destruct C as [Hh Hm]; simpl in Hh, Hm. subst h2.
  rewrite (truncated_lookahead _ _ Hm).
  destruct (lookahead m2 =? ch_quote) eqn:Q1; cbn [negb]; [|split; auto].
  assert (H1 : T (advance m1) (advance m2)).
  { apply truncated_advance; [exact Hm|]. apply Z.eqb_eq in Q1. rewrite Q1; discriminate. }
  rewrite (truncated_lookahead _ _ H1).
  destruct (lookahead (advance m2) =? ch_quote) eqn:Q2.
  2:{ apply (loop_same _ _ T); [apply truncated_single_line_body|exact H1]. }
  assert (H2 : T (advance (advance m1)) (advance (advance m2))).
  { apply truncated_advance; [exact H1|]. apply Z.eqb_eq in Q2. rewrite Q2; discriminate. }
  rewrite (truncated_lookahead _ _ H2).
  destruct (lookahead (advance (advance m2)) =? ch_quote) eqn:Q3; cbn [negb].
  2:{ pose proof (truncated_hashes (Z.to_nat h1) _ _ H2) as [Hb Hl].
      unfold try_consume_hashes.
      destruct (try_consume_hashes_from _ (advance (advance m1))) as [b1 n1],
               (try_consume_hashes_from _ (advance (advance m2))) as [b2 n2];
        simpl in *. subst b2.
      destruct b1; (split; [reflexivity|]); [apply truncated_set|]; exact Hl. }
  assert (H3 : T (advance (advance (advance m1))) (advance (advance (advance m2)))).
  { apply truncated_advance; [exact H2|]. apply Z.eqb_eq in Q3. rewrite Q3; discriminate. }
  rewrite (truncated_lookahead _ _ H3).
  destruct (is_newline (lookahead (advance (advance (advance m2))))) eqn:N; cbn [negb];
    [|split; auto].
  apply (loop_same _ _ T); [apply truncated_multi_line_body|].
  apply truncated_newline; assumption.
Qed.
End Truncated.

(** C10: the scanner takes a NUL lookahead for the end of the input: with the
    end-of-input kind requested it reports that kind after advancing once,
    each of the three loops returns failure on it, and a scan of a stream
    with a NUL in it gives the verdict, the position and the kind that it
    gives on the stream cut off before the NUL. *)
Theorem nul_is_end_of_input :
  (forall fuel lexer valid_symbols,
      valid_symbols _EOF = true -> lookahead lexer = 0 ->
      tree_sitter_kdl_external_scanner_scan fuel lexer valid_symbols
      = Some (true, mkLexer (input lexer) (S (pos lexer)) _EOF)) /\
  (forall s, lookahead (c_lexer s) = 0 -> comment_body s = Return (false, c_lexer s)) /\
  (forall hashes lexer,
      lookahead lexer = 0 -> single_line_body hashes lexer = Return (false, lexer)) /\
  (forall hashes lexer,
      lookahead lexer = 0 -> multi_line_body hashes lexer = Return (false, lexer)) /\
  (forall fuel pre rest p k valid_symbols,
      (p <= length pre)%nat ->
      outcome (tree_sitter_kdl_external_scanner_scan fuel
                 (mkLexer (pre ++ 0 :: rest) p k) valid_symbols)
      = outcome (tree_sitter_kdl_external_scanner_scan fuel (mkLexer pre p k) valid_symbols)).
Proof.
  split; [|split; [|split; [|split]]].
  - intros fuel l v V L. unfold tree_sitter_kdl_external_scanner_scan.
    rewrite V, L. reflexivity.
  - intros [a k l] L. apply comment_body_end; exact L.
  - intros h l L. apply single_line_body_stop; left; exact L.
  - intros h l L. apply multi_line_body_stop; exact L.
  - intros fuel pre rest p k v Hp.
    assert (H : truncated pre rest (mkLexer (pre ++ 0 :: rest) p k) (mkLexer pre p k)).
    { unfold truncated; simpl; auto. }
    assert (O : forall r1 r2, same_option (same_verdict pre rest) r1 r2 ->
                              outcome r1 = outcome r2).
    { intros [[b1 l1]|] [[b2 l2]|] S; simpl in S; try contradiction; [|reflexivity].
      destruct S as [Hb (_ & _ & P & _ & K)]; simpl in *. congruence. }
    unfold tree_sitter_kdl_external_scanner_scan.
    rewrite (truncated_lookahead _ _ _ _ H).
    destruct (v _EOF && (lookahead (mkLexer pre p k) =? 0)); [reflexivity|].
    destruct (v RAW_STRING && (lookahead (mkLexer pre p k) =? ch_hash)).
    { apply O, truncated_scan_raw_string; exact H. }
    destruct (v MULTI_LINE_COMMENT && (lookahead (mkLexer pre p k) =? ch_slash)).
    { apply O, truncated_scan_multiline_comment; exact H. }
    reflexivity.
Qed.

(** A comment cut by a NUL scans as the comment cut by the end of the input. *)
Lemma nul_is_end_of_input_witness :
  outcome (tree_sitter_kdl_external_scanner_scan 9
             (mkLexer ([47; 42; 97] ++ 0 :: [42; 47]) 0 _EOF) (only MULTI_LINE_COMMENT))
  = outcome (tree_sitter_kdl_external_scanner_scan 9
               (mkLexer [47; 42; 97] 0 _EOF) (only MULTI_LINE_COMMENT)).
Proof.
  apply (proj2 (proj2 (proj2 (proj2 nul_is_end_of_input)))). simpl; lia.
Defined.

(** ** The examples of the specification *)

(** [##], a quoted [hi], [##]: one token over the whole text. *)
Example raw_string_two_hashes :
  outcome (tree_sitter_kdl_external_scanner_scan 9
             (start [35; 35; 34; 104; 105; 34; 35; 35]) (only RAW_STRING))
  = Some (true, 8%nat, RAW_STRING).
Proof. reflexivity. Qed.

(** [#], two quotes, [#]: the empty single-line raw string. *)
Example raw_string_empty :
  outcome (tree_sitter_kdl_external_scanner_scan 5 (start [35; 34; 34; 35]) (only RAW_STRING))
  = Some (true, 4%nat, RAW_STRING).
Proof. reflexivity. Qed.

(** At the end of the input, with the end-of-input kind requested, the scan
    succeeds and advances once. *)
Example end_of_input_token :
  outcome (tree_sitter_kdl_external_scanner_scan 1 (mkLexer [97] 1 _EOF) (only _EOF))
  = Some (true, 2%nat, _EOF).
Proof. reflexivity. Qed.

(** Four quotes in a row before the closing number sign: the probe takes
    the first three, and the scan runs to the end of the input. *)
Example four_quotes_in_a_row :
  outcome (tree_sitter_kdl_external_scanner_scan 11
             (start [35; 34; 34; 34; 10; 34; 34; 34; 34; 35]) (only RAW_STRING))
  = Some (false, 10%nat, _EOF).
Proof. reflexivity. Qed.

(** ** Probing for number signs *)

Lemma try_consume_hashes_from_exact : forall n l,
  try_consume_hashes_from n l
  = ((n <=? leading_hashes (ahead l))%nat, skip (Nat.min n (leading_hashes (ahead l))) l).
Proof.
  induction n as [|n IH]; intros l.
  - simpl. rewrite skip_0. reflexivity.
  - cbn [try_consume_hashes_from]. destruct (ahead l) as [|c t] eqn:A.
    + destruct (ahead_nil _ A) as [L _]. rewrite L. simpl. rewrite skip_0. reflexivity.
    + destruct (ahead_cons _ _ _ A) as (L & A1 & _). rewrite L. cbn [leading_hashes].
      destruct (c =? ch_hash); cbn [negb].
      * rewrite IH, A1, skip_advance. reflexivity.
      * simpl. rewrite skip_0. reflexivity.
Qed.

Lemma leading_hashes_nth : forall text i,
  (i < leading_hashes text)%nat -> nth i text 0 = ch_hash.
Proof.
  induction text as [|c t IH]; intros i H; simpl in H; [lia|].
  destruct (c =? ch_hash) eqn:E; [|lia]. apply Z.eqb_eq in E.
  destruct i as [|i]; simpl; [exact E|]. apply IH; lia.
Qed.

Lemma nth_ahead l i : nth i (ahead l) 0 = nth (pos l + i) (input l) 0.
Proof.
  unfold ahead. generalize (pos l) as p, (input l) as text.
  induction p as [|p IH]; intros text; simpl; [reflexivity|].
  destruct text as [|x text]; [destruct i; reflexivity|]. apply IH.
Qed.

(** [try_consume_hashes] succeeds exactly when at least [hashes] number
    signs are ahead, and in either case steps over number signs only: over
    [hashes] of them on success, over the whole, shorter run on failure. *)
Theorem try_consume_hashes_exact (lexer : TSLexer) (hashes : Z) :
  try_consume_hashes lexer hashes
  = ((Z.to_nat hashes <=? leading_hashes (ahead lexer))%nat,
     skip (Nat.min (Z.to_nat hashes) (leading_hashes (ahead lexer))) lexer) /\
  all_at ch_hash (input lexer) (pos lexer)
         (Nat.min (Z.to_nat hashes) (leading_hashes (ahead lexer))).
Proof.
  split; [apply try_consume_hashes_from_exact|].
  intros i Hi. replace i with (pos lexer + (i - pos lexer))%nat by lia.
  rewrite <- nth_ahead. apply leading_hashes_nth. lia.
Qed.

Lemma leading_hashes_repeat N after :
  hd 0 after <> ch_hash -> leading_hashes (repeat ch_hash N ++ after) = N.
Proof.
  intros H. induction N as [|N IH]; simpl.
  - destruct after as [|c t]; [reflexivity|]. simpl in *.
    apply Z.eqb_neq in H. rewrite H. reflexivity.
  - rewrite IH. reflexivity.
Qed.

(** ** Openers that lead nowhere *)

(** Number signs followed by something other than a quote are no raw
    string: the scan fails with the cursor on that code point, having
    stepped over the number signs. *)
Theorem hashes_without_quote_fail
  (N : nat) (after : list Z) (fuel : nat) (valid_symbols : ValidSymbols) :
  (1 <= N)%nat ->
  valid_symbols RAW_STRING = true ->
  hd 0 after <> ch_hash ->
  hd 0 after <> ch_quote ->
  addressable (repeat ch_hash N ++ after) ->
  (N < fuel)%nat ->
  tree_sitter_kdl_external_scanner_scan fuel (start (repeat ch_hash N ++ after)) valid_symbols
  = Some (false, mkLexer (repeat ch_hash N ++ after) N _EOF).
Proof.
  intros HN V Hh Hq Haddr Hf. unfold addressable in Haddr.
  rewrite length_app, repeat_length in Haddr.
  assert (L : lookahead (start (repeat ch_hash N ++ after)) = ch_hash).
  { destruct N as [|N']; [lia|]. reflexivity. }
  rewrite scan_dispatch_raw by assumption. unfold scan_raw_string.
  rewrite L, Z.eqb_refl. cbn [negb].
  rewrite (count_hashes_run N 0 _ after fuel) by (try reflexivity; try assumption; lia).
  pose proof (ahead_skip_app (repeat ch_hash N) (start (repeat ch_hash N ++ after)) after
                eq_refl) as A.
  rewrite repeat_length in A. rewrite (ahead_hd _ _ A).
  apply Z.eqb_neq in Hq. rewrite Hq. cbn [negb]. rewrite skip_start. reflexivity.
Qed.

(** The keyword [#true]. *)
Lemma hashes_without_quote_fail_witness :
  tree_sitter_kdl_external_scanner_scan 2 (start (repeat ch_hash 1 ++ [116; 114; 117; 101]))
    (only RAW_STRING)
  = Some (false, mkLexer (repeat ch_hash 1 ++ [116; 114; 117; 101]) 1 _EOF).
Proof.
  apply (hashes_without_quote_fail 1 [116; 114; 117; 101] 2 (only RAW_STRING)).
  - lia.
  - reflexivity.
  - discriminate.
  - discriminate.
  - unfold addressable; simpl; lia.
  - lia.
Defined.

(** A slash that no asterisk follows opens no comment: the scan fails after
    stepping over that one slash, whatever the fuel; so a line comment is
    never taken for a block comment. *)
Theorem lone_slash_fails
  (fuel : nat) (lexer : TSLexer) (t : list Z) (valid_symbols : ValidSymbols) :
  valid_symbols MULTI_LINE_COMMENT = true ->
  ahead lexer = ch_slash :: t ->
  hd 0 t <> ch_star ->
  tree_sitter_kdl_external_scanner_scan fuel lexer valid_symbols = Some (false, skip 1 lexer).
Proof.
  intros V A Ht. destruct (ahead_cons _ _ _ A) as (L & A1 & _).
  rewrite scan_dispatch_comment by assumption. unfold scan_multiline_comment.
  rewrite L, Z.eqb_refl. cbn [negb]. rewrite (ahead_hd _ _ A1).
  apply Z.eqb_neq in Ht. rewrite Ht. reflexivity.
Qed.

Lemma lone_slash_fails_witness :
  tree_sitter_kdl_external_scanner_scan 0 (mkLexer [97; 47; 47; 98] 1 _EOF)
    (only MULTI_LINE_COMMENT)
  = Some (false, skip 1 (mkLexer [97; 47; 47; 98] 1 _EOF)).
Proof.
  apply (lone_slash_fails 0 (mkLexer [97; 47; 47; 98] 1 _EOF) [47; 98] (only MULTI_LINE_COMMENT)).
  - reflexivity.
  - reflexivity.
  - discriminate.
Defined.

(** ** The empty raw string *)

(** Number signs and two quotes not followed by a third: the scan matches
    exactly when at least as many number signs follow, and the token ends
    after that many of them; with fewer it fails at once, on the code point
    after the shorter run, and does not look for a later closer. *)
Theorem empty_raw_string_scan
  (N : nat) (after : list Z) (fuel : nat) (valid_symbols : ValidSymbols) :
  (1 <= N)%nat ->
  valid_symbols RAW_STRING = true ->
  hd 0 after <> ch_quote ->
  addressable (empty_raw_text N after) ->
  (N < fuel)%nat ->
  tree_sitter_kdl_external_scanner_scan fuel (start (empty_raw_text N after)) valid_symbols
  = if (N <=? leading_hashes after)%nat
    then Some (true, mkLexer (empty_raw_text N after) (N + 2 + N) RAW_STRING)
    else Some (false, mkLexer (empty_raw_text N after) (N + 2 + leading_hashes after) _EOF).
Proof.
  intros HN V Hq Haddr Hf. unfold addressable in Haddr.
  set (text := empty_raw_text N after) in *.
  assert (Hlen : (N <= length text)%nat).
  { unfold text, empty_raw_text. rewrite length_app, repeat_length. lia. }
  assert (A : ahead (start text) = repeat ch_hash N ++ ch_quote :: ch_quote :: after)
    by reflexivity.
  assert (L : lookahead (start text) = ch_hash).
  { destruct N as [|N']; [lia|]. reflexivity. }
  rewrite scan_dispatch_raw by assumption. unfold scan_raw_string.
  rewrite L, Z.eqb_refl. cbn [negb].
  rewrite (count_hashes_run N 0 _ _ fuel A) by (simpl; try discriminate; lia).
  cbn [Z.add].
  pose proof (ahead_skip_app (repeat ch_hash N) _ _ A) as A1. rewrite repeat_length in A1.
  destruct (ahead_cons _ _ _ A1) as (L1 & A2 & _).
  destruct (ahead_cons _ _ _ A2) as (L2 & A3 & _).
  rewrite L1, Z.eqb_refl. cbn [negb]. rewrite L2, Z.eqb_refl.
  rewrite (ahead_hd _ _ A3). apply Z.eqb_neq in Hq. rewrite Hq. cbn [negb].
  unfold try_consume_hashes. rewrite Nat2Z.id, try_consume_hashes_from_exact, A3.
  rewrite !skip_advance, skip_skip, skip_start.
  destruct (N <=? leading_hashes after)%nat eqn:E.
  - apply Nat.leb_le in E. rewrite Nat.min_l by exact E.
    unfold set_result_symbol; cbn [input pos]. do 3 f_equal. lia.
  - apply Nat.leb_gt in E. rewrite Nat.min_r by lia. do 3 f_equal. lia.
Qed.

(** Two number signs, two quotes, one number sign and then a full closer. *)
Lemma empty_raw_string_scan_witness :
  tree_sitter_kdl_external_scanner_scan 3
    (start (empty_raw_text 2 [35; 32; 34; 35; 35])) (only RAW_STRING)
  = Some (false, mkLexer (empty_raw_text 2 [35; 32; 34; 35; 35]) 5 _EOF).
Proof.
  apply (empty_raw_string_scan 2 [35; 32; 34; 35; 35] 3 (only RAW_STRING)).
  - lia.
  - reflexivity.
  - discriminate.
  - unfold addressable; simpl; lia.
  - lia.
Defined.

(** ** Asterisks and slashes in a comment *)

Lemma no_slash_spec c : no_slash c = true -> c <> 0 /\ c <> ch_slash.
Proof. unfold no_slash; intros H. eqb_hyps. auto. Qed.

Lemma comment_body_no_slash a k l c t :
  ahead l = c :: t -> no_slash c = true ->
  comment_body (mkComment a k l) = Continue (mkComment (c =? ch_star) k (advance l)).
Proof.
  intros A H. destruct (ahead_cons _ _ _ A) as (L & _ & _).
  destruct (no_slash_spec _ H) as [H0 H1].
  unfold comment_body; cbn [c_lexer after_star nesting_depth]. rewrite L.
  apply Z.eqb_neq in H0, H1. rewrite H0, H1.
  destruct (c =? ch_star); reflexivity.
Qed.

Lemma comment_run_no_slash k : forall body a l rest,
  forallb no_slash body = true ->
  ahead l = body ++ rest ->
  exists a', run comment_body (length body) (mkComment a k l)
             = Some (mkComment a' k (skip (length body) l)).
Proof.
  induction body as [|c body IH]; intros a l rest Hok A.
  - exists a. simpl. rewrite skip_0. reflexivity.
  - simpl in Hok. apply andb_true_iff in Hok; destruct Hok as [Hc Hok].
    destruct (ahead_cons _ _ _ A) as (_ & A1 & _).
    destruct (IH (c =? ch_star) (advance l) rest Hok A1) as [a' R].
    exists a'. cbn [length run]. rewrite (comment_body_no_slash _ _ _ _ _ A Hc).
    rewrite R, skip_advance. reflexivity.
Qed.

(** A comment whose body holds no slash and no sentinel, but any number of
    asterisks, is one token that ends with its closer, whatever follows: an
    asterisk closes nothing unless a slash comes right after it. *)
Theorem flat_comment_scans
  (body rest : list Z) (fuel : nat) (valid_symbols : ValidSymbols) :
  valid_symbols MULTI_LINE_COMMENT = true ->
  forallb no_slash body = true ->
  (length (flat_comment body ++ rest) < fuel)%nat ->
  tree_sitter_kdl_external_scanner_scan fuel (start (flat_comment body ++ rest)) valid_symbols
  = Some (true, mkLexer (flat_comment body ++ rest) (length (flat_comment body))
                        MULTI_LINE_COMMENT).
Proof.
  intros V Hok Hf. set (text := flat_comment body ++ rest) in *.
  assert (Hlen : length (flat_comment body) = (length body + 4)%nat).
  { unfold flat_comment. cbn [length]. rewrite length_app. simpl. lia. }
  assert (A : ahead (start text) = ch_slash :: ch_star :: body ++ (ch_star :: ch_slash :: rest)).
  { rewrite ahead_start. unfold text, flat_comment. cbn [app].
    rewrite <- app_assoc. reflexivity. }
  destruct (ahead_cons _ _ _ A) as (L & A1 & _).
  destruct (ahead_cons _ _ _ A1) as (_ & A2 & _).
  rewrite scan_dispatch_comment by assumption.
  rewrite (scan_multiline_comment_opened _ _ _ A).
  destruct (comment_run_no_slash 1 body false (skip 2 (start text)) _ Hok A2) as [a' R].
  pose proof (ahead_skip_app body _ _ A2) as A3.
  destruct (ahead_cons _ _ _ A3) as (L3 & A4 & _).
  destruct (ahead_cons _ _ _ A4) as (L4 & _ & _).
  assert (R2 : run comment_body (length body + 1) (mkComment false 1 (skip 2 (start text)))
               = Some (mkComment true 1 (advance (skip (length body) (skip 2 (start text)))))).
  { eapply run_app; [exact R|]. cbn [run].
    rewrite comment_body_star by exact L3. reflexivity. }
  apply (loop_from_run comment_body _ _ _ _ fuel R2).
  - rewrite comment_body_close by exact L4.
    change (u32 (1 - 1) =? 0) with true. cbv iota.
    do 2 f_equal. unfold set_result_symbol, advance, skip, start; cbn [input pos result_symbol].
    f_equal. lia.
  - apply comment_loop_total. unfold remaining, skip, start; cbn [c_lexer input pos].
    fold text. lia.
Qed.

(** A comment of asterisks only, followed by a line feed. *)
Lemma flat_comment_scans_witness :
  tree_sitter_kdl_external_scanner_scan 10 (start (flat_comment [42; 42; 32; 42] ++ [10]))
    (only MULTI_LINE_COMMENT)
  = Some (true, mkLexer (flat_comment [42; 42; 32; 42] ++ [10])
                        (length (flat_comment [42; 42; 32; 42])) MULTI_LINE_COMMENT).
Proof.
  apply (flat_comment_scans [42; 42; 32; 42] [10] 10 (only MULTI_LINE_COMMENT)).
  - reflexivity.
  - reflexivity.
  - simpl; lia.
Defined.

(** ** What a matched comment looks like *)

Lemma span_advance2 (P : Z -> Prop) l :
  P (lookahead l) -> P (lookahead (advance l)) -> span P l (advance (advance l)).
Proof.
  intros H1 H2. eapply span_trans; apply span_advance; assumption.
Qed.

Lemma span_set P k l l' : span P l l' -> span P l (set_result_symbol k l').
Proof. unfold span; simpl; auto. Qed.

Lemma comment_body_shape s :
  match comment_body s with
  | Continue s' =>
      span nonzero (c_lexer s) (c_lexer s') /\
      (pos (c_lexer s) < pos (c_lexer s'))%nat /\
      (after_star s' = true ->
       nth (pos (c_lexer s') - 1) (input (c_lexer s)) 0 = ch_star)
  | Return (true, l') =>
      after_star s = true /\ lookahead (c_lexer s) = ch_slash /\
      l' = set_result_symbol MULTI_LINE_COMMENT (advance (c_lexer s))
  | Return (false, l') => l' = c_lexer s
  end.
Proof.
  destruct s as [a k l]. unfold comment_body; cbn [c_lexer after_star nesting_depth].
  destruct (lookahead l =? 0) eqn:E0; [reflexivity|]. apply Z.eqb_neq in E0.
  assert (S1 : span nonzero l (advance l)) by (apply span_advance; exact E0).
  destruct (lookahead l =? ch_star) eqn:Es.
  { apply Z.eqb_eq in Es. cbn [c_lexer after_star advance pos input].
    split; [exact S1|]. split; [lia|]. intros _.
    replace (S (pos l) - 1)%nat with (pos l) by lia. exact Es. }
  destruct (lookahead l =? ch_slash) eqn:El.
  2:{ cbn [c_lexer after_star]. split; [exact S1|].
      split; [simpl; lia|discriminate]. }
  apply Z.eqb_eq in El. destruct a.
  - destruct (u32 (k - 1) =? 0).
    + auto.
    + cbn [c_lexer after_star]. split; [exact S1|]. split; [simpl; lia|discriminate].
  - destruct (lookahead (advance l) =? ch_star) eqn:E2; cbn [c_lexer after_star].
    + apply Z.eqb_eq in E2. split; [|split; [simpl; lia|discriminate]].
      apply span_advance2; [exact E0|]. unfold nonzero. rewrite E2. discriminate.
    + split; [exact S1|]. split; [simpl; lia|discriminate].
Qed.

Lemma comment_loop_match_ends fuel l0 l' :
  loop comment_body fuel (mkComment false 1 l0) = Some (true, l') ->
  span nonzero l0 l' /\ (pos l0 + 2 <= pos l')%nat /\
  nth (pos l' - 2) (input l0) 0 = ch_star /\
  nth (pos l' - 1) (input l0) 0 = ch_slash.
Proof.
  intros H.
  apply (loop_inv comment_body
    (fun s => span nonzero l0 (c_lexer s) /\
              (pos l0 + (if after_star s then 1 else 0) <= pos (c_lexer s))%nat /\
              (after_star s = true ->
               nth (pos (c_lexer s) - 1) (input l0) 0 = ch_star))
    (fun r => fst r = true ->
              span nonzero l0 (snd r) /\ (pos l0 + 2 <= pos (snd r))%nat /\
              nth (pos (snd r) - 2) (input l0) 0 = ch_star /\
              nth (pos (snd r) - 1) (input l0) 0 = ch_slash))
    with (fuel := fuel) (s := mkComment false 1 l0) (r := (true, l')).
  - intros s s' (IS & IP & IA) Hc.
    pose proof (comment_body_shape s) as B. rewrite Hc in B. destruct B as (B1 & B2 & B3).
    assert (Hin : input (c_lexer s) = input l0) by apply IS.
    split; [eapply span_trans; eassumption|]. split.
    + destruct (after_star s'), (after_star s); lia.
    + intros Ha. rewrite <- Hin. apply B3; exact Ha.
  - intros s [b l1] (IS & IP & IA) Hr Hb. simpl in Hb; subst b.
    pose proof (comment_body_shape s) as B. rewrite Hr in B. destruct B as (B1 & B2 & ->).
    assert (Hin : input (c_lexer s) = input l0) by apply IS.
    rewrite B1 in IP. specialize (IA B1).
    cbn [snd set_result_symbol advance pos].
    split; [|split; [lia|split]].
    + apply span_set. eapply span_trans; [exact IS|].
      apply span_advance. unfold nonzero. rewrite B2. discriminate.
    + replace (S (pos (c_lexer s)) - 2)%nat with (pos (c_lexer s) - 1)%nat by lia. exact IA.
    + replace (S (pos (c_lexer s)) - 1)%nat with (pos (c_lexer s)) by lia.
      unfold lookahead in B2. rewrite Hin in B2. exact B2.
  - split; [apply span_refl|]. split; [simpl; lia|discriminate].
  - exact H.
  - reflexivity.
Qed.


(** Whatever the input, a comment that [scan_multiline_comment] matches
    starts with a slash and an asterisk, ends with an asterisk and a slash
    that are not those of the opener (so it is at least four code points
    long), holds no NUL, and is reported as a multi-line comment. *)
Theorem matched_comment_shape (fuel : nat) (lexer lexer' : TSLexer) :
  scan_multiline_comment fuel lexer = Some (true, lexer') ->
  input lexer' = input lexer /\
  result_symbol lexer' = MULTI_LINE_COMMENT /\
  (pos lexer + 4 <= pos lexer')%nat /\
  nth (pos lexer) (input lexer) 0 = ch_slash /\
  nth (pos lexer + 1) (input lexer) 0 = ch_star /\
  nth (pos lexer' - 2) (input lexer) 0 = ch_star /\
  nth (pos lexer' - 1) (input lexer) 0 = ch_slash /\
  (forall i, (pos lexer <= i < pos lexer')%nat -> nth i (input lexer) 0 <> 0).
Proof.
  intros H0. pose proof H0 as H. unfold scan_multiline_comment in H.
  destruct (lookahead lexer =? ch_slash) eqn:E1; cbn [negb] in H; [|discriminate].
  destruct (lookahead (advance lexer) =? ch_star) eqn:E2; cbn [negb] in H; [|discriminate].
  apply Z.eqb_eq in E1, E2.
  assert (S0 : span nonzero lexer (advance (advance lexer))).
  { apply span_advance2; unfold nonzero; [rewrite E1|rewrite E2]; discriminate. }
  destruct (comment_loop_match_ends _ _ _ H) as (Sp & Hp & Hs & Hl).
  destruct (scan_multiline_comment_result _ _ _ _ H0) as (_ & T & _).
  destruct (span_trans _ _ _ _ S0 Sp) as (Hi & Hpos & Hall).
  cbn [advance pos input] in Hp, Hs, Hl.
  unfold lookahead in E1, E2; cbn [advance pos input] in E2.
  split; [exact Hi|]. split; [apply T; reflexivity|]. split; [lia|].
  split; [exact E1|]. split; [rewrite Nat.add_1_r; exact E2|].
  split; [exact Hs|]. split; [exact Hl|exact Hall].
Qed.

Lemma matched_comment_shape_witness :
  (0 + 4 <= 8)%nat /\
  nth (8 - 2) [47; 42; 47; 42; 42; 47; 42; 47; 120] 0 = ch_star.
Proof.
  destruct (matched_comment_shape 9 (start [47; 42; 47; 42; 42; 47; 42; 47; 120])
              (mkLexer [47; 42; 47; 42; 42; 47; 42; 47; 120] 8 MULTI_LINE_COMMENT) eq_refl)
    as (_ & _ & H1 & _ & _ & H2 & _).
  split; [exact H1|exact H2].
Defined.

(** ** What a matched raw string looks like *)

Lemma try_consume_hashes_true l h l' :
  try_consume_hashes l h = (true, l') ->
  l' = skip (Z.to_nat h) l /\ all_at ch_hash (input l) (pos l) (Z.to_nat h).
Proof.
  unfold try_consume_hashes. rewrite try_consume_hashes_from_exact. intros H.
  injection H as Hle Hl. apply Nat.leb_le in Hle.
  rewrite Nat.min_l in Hl by exact Hle. split; [symmetry; exact Hl|].
  intros i Hi. replace i with (pos l + (i - pos l))%nat by lia.
  rewrite <- nth_ahead. apply leading_hashes_nth. lia.
Qed.

Lemma single_line_body_match h l l' :
  single_line_body h l = Return (true, l') ->
  lookahead l = ch_quote /\
  l' = set_result_symbol RAW_STRING (skip (S (Z.to_nat h)) l) /\
  all_at ch_hash (input l) (S (pos l)) (Z.to_nat h).
Proof.
  unfold single_line_body.
  destruct (eof l || (lookahead l =? 0)); [discriminate|].
  destruct (is_newline (lookahead l)); [discriminate|].
  destruct (lookahead l =? ch_quote) eqn:Q; cbn [negb]; [|discriminate].
  apply Z.eqb_eq in Q.
  destruct (try_consume_hashes (advance l) h) as [[|] l1] eqn:T; [|discriminate].
  destruct (try_consume_hashes_true _ _ _ T) as [-> A].
  intros H; injection H as <-. rewrite skip_advance. auto.
Qed.

Lemma single_line_match_ends (fuel : nat) (lexer lexer' : TSLexer) (hashes : Z) :
  scan_raw_string_single_line fuel lexer hashes = Some (true, lexer') ->
  input lexer' = input lexer /\
  result_symbol lexer' = RAW_STRING /\
  (pos lexer + 1 + Z.to_nat hashes <= pos lexer')%nat /\
  nth (pos lexer' - Z.to_nat hashes - 1) (input lexer) 0 = ch_quote /\
  all_at ch_hash (input lexer) (pos lexer' - Z.to_nat hashes) (Z.to_nat hashes).
Proof.
  intros H. set (n := Z.to_nat hashes).
  apply (loop_inv (single_line_body hashes)
    (fun l1 => moved lexer l1)
    (fun r => fst r = true ->
              input (snd r) = input lexer /\ result_symbol (snd r) = RAW_STRING /\
              (pos lexer + 1 + n <= pos (snd r))%nat /\
              nth (pos (snd r) - n - 1) (input lexer) 0 = ch_quote /\
              all_at ch_hash (input lexer) (pos (snd r) - n) n))
    with (fuel := fuel) (s := lexer) (r := (true, lexer')).
  - intros s s' M Hc. destruct (single_line_body_continue _ _ _ Hc) as (M' & _).
    eapply moved_trans; eassumption.
  - intros s [b l1] (Hi & Hp & _) Hr Hb. simpl in Hb; subst b.
    destruct (single_line_body_match _ _ _ Hr) as (Q & -> & A). fold n in A.
    cbn [snd set_result_symbol skip input pos result_symbol]. fold n.
    unfold lookahead in Q. rewrite Hi in *.
    split; [reflexivity|]. split; [reflexivity|]. split; [lia|].
    replace (S n + pos s - n - 1)%nat with (pos s) by lia. split; [exact Q|].
    replace (S n + pos s - n)%nat with (S (pos s)) by lia. exact A.
  - apply moved_refl.
  - exact H.
  - reflexivity.
Qed.

(** Whatever the input, a match of the single-line loop ends with a quote
    followed by exactly [hashes] number signs, all of them stepped over, and
    goes over no newline and no NUL. *)
Theorem matched_single_line_shape (fuel : nat) (lexer lexer' : TSLexer) (hashes : Z) :
  scan_raw_string_single_line fuel lexer hashes = Some (true, lexer') ->
  input lexer' = input lexer /\
  result_symbol lexer' = RAW_STRING /\
  (pos lexer + 1 + Z.to_nat hashes <= pos lexer')%nat /\
  nth (pos lexer' - Z.to_nat hashes - 1) (input lexer) 0 = ch_quote /\
  all_at ch_hash (input lexer) (pos lexer' - Z.to_nat hashes) (Z.to_nat hashes) /\
  (forall i, (pos lexer <= i < pos lexer')%nat -> on_one_line (nth i (input lexer) 0)).
Proof.
  intros H.
  destruct (single_line_match_ends _ _ _ _ H) as (Hi & Hs & Hp & Hq & Hh).
  destruct (single_line_match_span _ _ _ _ _ H) as (_ & _ & Hall).
  split; [exact Hi|]. split; [exact Hs|]. split; [exact Hp|].
  split; [exact Hq|]. split; [exact Hh|exact Hall].
Qed.

Lemma matched_single_line_shape_witness :
  nth (9 - Z.to_nat 2 - 1) [34; 97; 34; 35; 98; 98; 34; 35; 35; 99] 0 = ch_quote.
Proof.
  apply (matched_single_line_shape 9 (mkLexer [34; 97; 34; 35; 98; 98; 34; 35; 35; 99] 1 _EOF)
           (mkLexer [34; 97; 34; 35; 98; 98; 34; 35; 35; 99] 9 RAW_STRING) 2 eq_refl).
Defined.

Lemma multi_line_body_match h l l' :
  multi_line_body h l = Return (true, l') ->
  all_at ch_quote (input l) (pos l) 3 /\
  l' = set_result_symbol RAW_STRING (skip (3 + Z.to_nat h) l) /\
  all_at ch_hash (input l) (3 + pos l) (Z.to_nat h).
Proof.
  unfold multi_line_body.
  destruct (eof l || (lookahead l =? 0)); [discriminate|].
  destruct (lookahead l =? ch_quote) eqn:Q1; cbn [negb];
    [|destruct (is_newline (lookahead l)); discriminate].
  destruct (lookahead (advance l) =? ch_quote) eqn:Q2; cbn [negb]; [|discriminate].
  destruct (lookahead (advance (advance l)) =? ch_quote) eqn:Q3; cbn [negb]; [|discriminate].
  apply Z.eqb_eq in Q1, Q2, Q3.
  destruct (try_consume_hashes _ h) as [[|] l1] eqn:T; [|discriminate].
  destruct (try_consume_hashes_true _ _ _ T) as [-> A].
  intros H; injection H as <-. rewrite !skip_advance.
  split; [|split; [reflexivity|exact A]].
  unfold lookahead in Q1, Q2, Q3; cbn [advance pos input] in Q2, Q3.
  intros i Hi.
  destruct (Nat.eq_dec i (pos l)) as [->|]; [exact Q1|].
  destruct (Nat.eq_dec i (S (pos l))) as [->|]; [exact Q2|].
  replace i with (S (S (pos l))) by lia. exact Q3.
Qed.

Lemma multi_line_match_ends (fuel : nat) (lexer lexer' : TSLexer) (hashes : Z) :
  scan_raw_string_multi_line fuel lexer hashes = Some (true, lexer') ->
  input lexer' = input lexer /\
  result_symbol lexer' = RAW_STRING /\
  (pos lexer + 3 + Z.to_nat hashes <= pos lexer')%nat /\
  all_at ch_quote (input lexer) (pos lexer' - Z.to_nat hashes - 3) 3 /\
  all_at ch_hash (input lexer) (pos lexer' - Z.to_nat hashes) (Z.to_nat hashes).
Proof.
  intros H. set (n := Z.to_nat hashes).
  apply (loop_inv (multi_line_body hashes)
    (fun l1 => moved lexer l1)
    (fun r => fst r = true ->
              input (snd r) = input lexer /\ result_symbol (snd r) = RAW_STRING /\
              (pos lexer + 3 + n <= pos (snd r))%nat /\
              all_at ch_quote (input lexer) (pos (snd r) - n - 3) 3 /\
              all_at ch_hash (input lexer) (pos (snd r) - n) n))
    with (fuel := fuel) (s := lexer) (r := (true, lexer')).
  - intros s s' M Hc. destruct (multi_line_body_continue _ _ _ Hc) as (M' & _).
    eapply moved_trans; eassumption.
  - intros s [b l1] (Hi & Hp & _) Hr Hb. simpl in Hb; subst b.
    destruct (multi_line_body_match _ _ _ Hr) as (Q & -> & A). fold n in A.
    cbn [snd set_result_symbol skip input pos result_symbol]. fold n.
    rewrite Hi in *.
    split; [reflexivity|]. split; [reflexivity|]. split; [lia|].
    replace (3 + n + pos s - n - 3)%nat with (pos s) by lia. split; [exact Q|].
    replace (3 + n + pos s - n)%nat with (3 + pos s)%nat by lia. exact A.
  - apply moved_refl.
  - exact H.
  - reflexivity.
Qed.

Lemma consume_newline_span l :
  is_newline (lookahead l) = true -> span nonzero l (consume_newline l).
Proof.
  intros N. apply is_newline_nonzero in N. unfold consume_newline.
  destruct (lookahead l =? ch_cr); [|apply span_advance; exact N].
  destruct (lookahead (advance l) =? ch_lf) eqn:E; [|apply span_advance; exact N].
  apply Z.eqb_eq in E. apply span_advance2; [exact N|].
  unfold nonzero. rewrite E. discriminate.
Qed.

Lemma multi_line_body_span hashes l :
  match multi_line_body hashes l with
  | Continue l' => span nonzero l l'
  | Return (_, l') => span nonzero l l'
  end.
Proof.
  unfold multi_line_body.
  destruct (eof l || (lookahead l =? 0)) eqn:E0; [apply span_refl|].
  eqb_hyps.
  assert (S1 : span nonzero l (advance l)) by (apply span_advance; assumption).
  destruct (lookahead l =? ch_quote); cbn [negb].
  2:{ destruct (is_newline (lookahead l)) eqn:N; [apply consume_newline_span; exact N|exact S1]. }
  destruct (lookahead (advance l) =? ch_quote) eqn:Q2; cbn [negb]; [|exact S1].
  apply Z.eqb_eq in Q2.
  assert (S2 : span nonzero l (advance (advance l))).
  { eapply span_trans; [exact S1|]. apply span_advance. unfold nonzero. rewrite Q2. discriminate. }
  destruct (lookahead (advance (advance l)) =? ch_quote) eqn:Q3; cbn [negb]; [|exact S2].
  apply Z.eqb_eq in Q3.
  assert (S3 : span nonzero l (advance (advance (advance l)))).
  { eapply span_trans; [exact S2|]. apply span_advance. unfold nonzero. rewrite Q3. discriminate. }
  pose proof (try_consume_hashes_from_span (Z.to_nat hashes) (advance (advance (advance l)))) as S4.
  fold (try_consume_hashes (advance (advance (advance l))) hashes) in S4.
  assert (S5 : span nonzero l (snd (try_consume_hashes (advance (advance (advance l))) hashes))).
  { eapply span_trans; [exact S3|]. eapply span_weaken; [|exact S4].
    intros c ->; discriminate. }
  destruct (try_consume_hashes _ hashes) as [[|] l1]; [apply span_set|]; exact S5.
Qed.

Lemma multi_line_match_span hashes fuel l b l' :
  scan_raw_string_multi_line fuel l hashes = Some (b, l') -> span nonzero l l'.
Proof.
  apply (loop_inv (multi_line_body hashes)
           (fun l1 => span nonzero l l1) (fun r => span nonzero l (snd r))).
  - intros s s' I H. pose proof (multi_line_body_span hashes s) as P. rewrite H in P.
    eapply span_trans; eassumption.
  - intros s [b1 l1] I H. pose proof (multi_line_body_span hashes s) as P. rewrite H in P.
    simpl. eapply span_trans; eassumption.
  - apply span_refl.
Qed.

(** Whatever the input, a match of the multi-line loop ends with three
    quotes followed by exactly [hashes] number signs, and goes over no NUL. *)
Theorem matched_multi_line_shape (fuel : nat) (lexer lexer' : TSLexer) (hashes : Z) :
  scan_raw_string_multi_line fuel lexer hashes = Some (true, lexer') ->
  input lexer' = input lexer /\
  result_symbol lexer' = RAW_STRING /\
  (pos lexer + 3 + Z.to_nat hashes <= pos lexer')%nat /\
  all_at ch_quote (input lexer) (pos lexer' - Z.to_nat hashes - 3) 3 /\
  all_at ch_hash (input lexer) (pos lexer' - Z.to_nat hashes) (Z.to_nat hashes) /\
  (forall i, (pos lexer <= i < pos lexer')%nat -> nth i (input lexer) 0 <> 0).
Proof.
  intros H.
  destruct (multi_line_match_ends _ _ _ _ H) as (Hi & Hs & Hp & Hq & Hh).
  destruct (multi_line_match_span _ _ _ _ _ H) as (_ & _ & Hall).
  split; [exact Hi|]. split; [exact Hs|]. split; [exact Hp|].
  split; [exact Hq|]. split; [exact Hh|exact Hall].
Qed.

Lemma matched_multi_line_shape_witness :
  all_at ch_quote [35; 34; 34; 34; 10; 34; 34; 120; 34; 34; 34; 35] (12 - Z.to_nat 1 - 3) 3.
Proof.
  apply (matched_multi_line_shape 9
           (mkLexer [35; 34; 34; 34; 10; 34; 34; 120; 34; 34; 34; 35] 5 _EOF)
           (mkLexer [35; 34; 34; 34; 10; 34; 34; 120; 34; 34; 34; 35] 12 RAW_STRING) 1 eq_refl).
Defined.

Lemma all_at_nil c text p : all_at c text p 0.
Proof. intros i Hi; lia. Qed.

Lemma all_at_snoc c text p n :
  all_at c text p n -> nth (p + n) text 0 = c -> all_at c text p (S n).
Proof.
  intros A H i Hi. destruct (Nat.eq_dec i (p + n)) as [->|]; [exact H|]. apply A; lia.
Qed.

Lemma all_at_inside c text p n :
  c <> 0 -> all_at c text p n -> (1 <= n)%nat -> (p + n <= length text)%nat.
Proof.
  intros Hc A Hn.
  destruct (Nat.le_gt_cases (p + n) (length text)) as [H|H]; [exact H|].
  exfalso. apply Hc. rewrite <- (A (p + n - 1)%nat) by lia.
  apply nth_overflow. lia.
Qed.

(** The counting loop stops after the whole run of number signs, with their
    number modulo 2^32. *)
Lemma count_hashes_shape fuel l h l1 :
  loop count_hashes_body fuel (0, l) = Some (h, l1) ->
  exists N, l1 = skip N l /\ h = u32 (Z.of_nat N) /\
            all_at ch_hash (input l) (pos l) N /\ lookahead l1 <> ch_hash.
Proof.
  apply (loop_inv count_hashes_body
    (fun s => exists N, snd s = skip N l /\ fst s = u32 (Z.of_nat N) /\
                        all_at ch_hash (input l) (pos l) N)
    (fun r => exists N, snd r = skip N l /\ fst r = u32 (Z.of_nat N) /\
                        all_at ch_hash (input l) (pos l) N /\ lookahead (snd r) <> ch_hash)).
  - intros [h1 m1] s' (N & Hl & Hh & A) Hc. simpl in Hl, Hh. subst m1 h1.
    unfold count_hashes_body in Hc.
    destruct (lookahead (skip N l) =? ch_hash) eqn:E; [|discriminate].
    apply Z.eqb_eq in E. injection Hc as <-. exists (S N). cbn [fst snd].
    split; [reflexivity|]. split.
    + unfold u32. rewrite Zplus_mod_idemp_l. f_equal. lia.
    + apply all_at_snoc; [exact A|]. unfold lookahead, skip in E; cbn [input pos] in E.
      rewrite Nat.add_comm. exact E.
  - intros [h1 m1] r (N & Hl & Hh & A) Hr. simpl in Hl, Hh. subst m1 h1.
    unfold count_hashes_body in Hr.
    destruct (lookahead (skip N l) =? ch_hash) eqn:E; [discriminate|].
    apply Z.eqb_neq in E. injection Hr as <-. exists N. cbn [fst snd]. auto.
  - exists 0%nat. cbn [fst snd]. rewrite skip_0. split; [reflexivity|].
    split; [reflexivity|apply all_at_nil].
Qed.

(** Whatever the input (of a length the driver can address), a raw string
    that [scan_raw_string] matches opens with some [N >= 1] number signs and
    a quote and ends with a quote and exactly [N] number signs, the closing
    quote being another one than the opening quote. *)
Theorem matched_raw_string_shape (fuel : nat) (lexer lexer' : TSLexer) :
  scan_raw_string fuel lexer = Some (true, lexer') ->
  addressable (input lexer) ->
  exists N : nat,
    (1 <= N)%nat /\
    input lexer' = input lexer /\
    result_symbol lexer' = RAW_STRING /\
    all_at ch_hash (input lexer) (pos lexer) N /\
    nth (pos lexer + N) (input lexer) 0 = ch_quote /\
    (pos lexer + N + 2 + N <= pos lexer')%nat /\
    nth (pos lexer' - N - 1) (input lexer) 0 = ch_quote /\
    all_at ch_hash (input lexer) (pos lexer' - N) N.
Proof.
  intros H Haddr. unfold addressable in Haddr. unfold scan_raw_string in H.
  destruct (lookahead lexer =? ch_hash) eqn:E0; cbn [negb] in H; [|discriminate].
  apply Z.eqb_eq in E0.
  destruct (loop count_hashes_body fuel (0, lexer)) as [[h l1]|] eqn:C; [|discriminate].
  destruct (count_hashes_shape _ _ _ _ C) as (N & -> & -> & A & Hn).
  assert (HN : (1 <= N)%nat).
  { destruct N as [|N]; [|lia]. rewrite skip_0 in Hn. contradiction. }
  pose proof (all_at_inside ch_hash _ _ _ ltac:(discriminate) A HN) as Hin.
  rewrite u32_small in H by lia.
  assert (Hto : forall l, try_consume_hashes l (Z.of_nat N) = try_consume_hashes_from N l).
  { intros l. unfold try_consume_hashes. rewrite Nat2Z.id. reflexivity. }
  exists N. split; [exact HN|].
  destruct (lookahead (skip N lexer) =? ch_quote) eqn:Q1; cbn [negb] in H; [|discriminate].
  apply Z.eqb_eq in Q1.
  assert (Q1' : nth (pos lexer + N) (input lexer) 0 = ch_quote).
  { unfold lookahead, skip in Q1; cbn [input pos] in Q1. rewrite Nat.add_comm. exact Q1. }
  destruct (lookahead (advance (skip N lexer)) =? ch_quote) eqn:Q2.
  - apply Z.eqb_eq in Q2.
    destruct (lookahead (advance (advance (skip N lexer))) =? ch_quote) eqn:Q3;
      cbn [negb] in H.
    + destruct (is_newline (lookahead (advance (advance (advance (skip N lexer)))))) eqn:Nl;
        cbn [negb] in H; [|discriminate].
      destruct (multi_line_match_ends _ _ _ _ H) as (Hi & Hs & Hp & Aq & Ah).
      rewrite Nat2Z.id in *.
      destruct (consume_newline_moved _ Nl) as ((Hi' & _ & _) & Hp' & _).
      rewrite Hi' in *. cbn [advance skip input pos] in *.
      split; [exact Hi|]. split; [exact Hs|]. split; [exact A|]. split; [exact Q1'|].
      split; [lia|]. split; [apply Aq; lia|exact Ah].
    + destruct (try_consume_hashes _ (Z.of_nat N)) as [[|] l2] eqn:T; [|discriminate].
      injection H as <-. destruct (try_consume_hashes_true _ _ _ T) as [-> Ah].
      rewrite Nat2Z.id in *. cbn [set_result_symbol advance skip input pos result_symbol] in *.
      split; [reflexivity|]. split; [reflexivity|]. split; [exact A|]. split; [exact Q1'|].
      split; [lia|]. split.
      * unfold lookahead in Q2; cbn [advance skip input pos] in Q2.
        replace (N + S (S (N + pos lexer)) - N - 1)%nat with (S (N + pos lexer)) by lia.
        exact Q2.
      * replace (N + S (S (N + pos lexer)) - N)%nat with (S (S (N + pos lexer))) by lia.
        exact Ah.
  - destruct (single_line_match_ends _ _ _ _ H) as (Hi & Hs & Hp & Aq & Ah).
    rewrite Nat2Z.id in *. cbn [advance skip input pos] in *.
    split; [exact Hi|]. split; [exact Hs|]. split; [exact A|]. split; [exact Q1'|].
    split; [lia|]. split; [exact Aq|exact Ah].
Qed.

Lemma matched_raw_string_shape_witness :
  exists N : nat,
    (1 <= N)%nat /\
    nth (0 + N) [35; 35; 34; 97; 34; 35; 98; 34; 35; 35; 35] 0 = ch_quote /\
    nth (10 - N - 1) [35; 35; 34; 97; 34; 35; 98; 34; 35; 35; 35] 0 = ch_quote.
Proof.
  destruct (matched_raw_string_shape 11 (start [35; 35; 34; 97; 34; 35; 98; 34; 35; 35; 35])
              (mkLexer [35; 35; 34; 97; 34; 35; 98; 34; 35; 35; 35] 10 RAW_STRING) eq_refl)
    as (N & H1 & _ & _ & _ & H2 & _ & H3 & _).
  - unfold addressable; simpl; lia.
  - exists N. auto.
Defined.

(** ** What every scan keeps *)

(** A scan that fails reports no kind: [result_symbol] is what it was on
    entry, over the same stream; only the cursor may have moved forward. *)
Theorem failed_scan_reports_nothing
  (fuel : nat) (lexer lexer' : TSLexer) (valid_symbols : ValidSymbols) :
  tree_sitter_kdl_external_scanner_scan fuel lexer valid_symbols = Some (false, lexer') ->
  result_symbol lexer' = result_symbol lexer /\
  input lexer' = input lexer /\
  (pos lexer <= pos lexer' <= Nat.max (pos lexer) (length (input lexer)))%nat.
Proof.
  assert (Q : forall l l', moved l l' ->
     input l' = input l /\ (pos l <= pos l' <= Nat.max (pos l) (length (input l)))%nat).
  { intros l l' (Hi & Hp & Hb). split; [exact Hi|]. lia. }
  unfold tree_sitter_kdl_external_scanner_scan.
  destruct (valid_symbols _EOF && (lookahead lexer =? 0)); [discriminate|].
  destruct (valid_symbols RAW_STRING && (lookahead lexer =? ch_hash)).
  { intros H. destruct (scan_raw_string_result _ _ _ _ H) as (M & _ & F).
    split; [apply F; reflexivity|apply Q; exact M]. }
  destruct (valid_symbols MULTI_LINE_COMMENT && (lookahead lexer =? ch_slash)).
  { intros H. destruct (scan_multiline_comment_result _ _ _ _ H) as (M & _ & F).
    split; [apply F; reflexivity|apply Q; exact M]. }
  intros H; injection H as <-. split; [reflexivity|]. split; [reflexivity|lia].
Qed.

(** An unterminated raw string after a comment kind was reported earlier. *)
Lemma failed_scan_reports_nothing_witness :
  result_symbol (mkLexer [35; 34; 97] 3 MULTI_LINE_COMMENT) = MULTI_LINE_COMMENT.
Proof.
  apply (failed_scan_reports_nothing 4 (mkLexer [35; 34; 97] 0 MULTI_LINE_COMMENT)
           (mkLexer [35; 34; 97] 3 MULTI_LINE_COMMENT) (only RAW_STRING) eq_refl).
Defined.




(** ** A scan does not look behind the cursor *)

Section Shifted.
Variable pre : list Z.
Local Abbreviation T := (shifted pre).

Lemma shifted_lookahead l1 l2 : T l1 l2 -> lookahead l1 = lookahead l2.
Proof.
  intros (I & P & _). unfold lookahead. rewrite I, P. apply app_nth2_plus.
Qed.

Lemma shifted_stop l1 l2 :
  T l1 l2 -> eof l1 || (lookahead l1 =? 0) = eof l2 || (lookahead l2 =? 0).
Proof.
  intros H. rewrite (shifted_lookahead _ _ H). f_equal.
  destruct H as (I & P & _). unfold eof. rewrite I, P, length_app.
  destruct (Nat.leb_spec (length pre + length (input l2)) (length pre + pos l2));
    destruct (Nat.leb_spec (length (input l2)) (pos l2)); try reflexivity; lia.
Qed.

Lemma shifted_advance l1 l2 :
  T l1 l2 -> lookahead l2 <> 0 -> T (advance l1) (advance l2).
Proof.
  intros (I & P & K) _. unfold shifted; simpl. rewrite I, P. repeat split; auto.
Qed.

Lemma shifted_set k l1 l2 :
  T l1 l2 -> T (set_result_symbol k l1) (set_result_symbol k l2).
Proof. intros (I & P & K). unfold shifted; simpl. auto. Qed.

Lemma shifted_hashes : forall n l1 l2,
  T l1 l2 ->
  shifted_verdict pre (try_consume_hashes_from n l1) (try_consume_hashes_from n l2).
Proof.
  induction n as [|n IH]; intros l1 l2 H; simpl; [split; auto|].
  rewrite (shifted_lookahead _ _ H).
  destruct (lookahead l2 =? ch_hash) eqn:E; simpl; [|split; auto].
  apply IH, shifted_advance; [exact H|]. apply Z.eqb_eq in E. rewrite E; discriminate.
Qed.

Lemma shifted_newline l1 l2 :
  T l1 l2 -> is_newline (lookahead l2) = true ->
  T (consume_newline l1) (consume_newline l2).
Proof.
  intros H N. apply is_newline_nonzero in N.
  pose proof (shifted_advance _ _ H N) as H1. unfold consume_newline.
  rewrite (shifted_lookahead _ _ H), (shifted_lookahead _ _ H1).
  destruct (lookahead l2 =? ch_cr); [|exact H1].
  destruct (lookahead (advance l2) =? ch_lf) eqn:E; [|exact H1].
  apply shifted_advance; [exact H1|]. apply Z.eqb_eq in E. rewrite E; discriminate.
Qed.

Lemma shifted_comment_body s1 s2 :
  shifted_comment_state pre s1 s2 ->
  same_step (shifted_comment_state pre) (shifted_verdict pre) (comment_body s1) (comment_body s2).
Proof.
  destruct s1 as [a1 k1 l1], s2 as [a2 k2 l2]. intros (Ha & Hk & H); simpl in *. subst a2 k2.
  unfold comment_body; cbn [c_lexer after_star nesting_depth].
  rewrite (shifted_lookahead _ _ H).
  destruct (lookahead l2 =? 0) eqn:E0; [split; auto|]. apply Z.eqb_neq in E0.
  pose proof (shifted_advance _ _ H E0) as H1.
  rewrite (shifted_lookahead _ _ H1).
  destruct (lookahead l2 =? ch_star);
    [split; [reflexivity|split; [reflexivity|exact H1]]|].
  destruct (lookahead l2 =? ch_slash);
    [|split; [reflexivity|split; [reflexivity|exact H1]]].
  destruct a1.
  - destruct (u32 (k1 - 1) =? 0).
    + split; [reflexivity|]. apply shifted_set; exact H1.
    + split; [reflexivity|split; [reflexivity|exact H1]].
  - destruct (lookahead (advance l2) =? ch_star) eqn:E;
      [|split; [reflexivity|split; [reflexivity|exact H1]]].
    split; [reflexivity|]. split; [reflexivity|]. simpl.
    apply shifted_advance; [exact H1|]. apply Z.eqb_eq in E. rewrite E; discriminate.
Qed.

Lemma shifted_single_line_body hashes l1 l2 :
  T l1 l2 ->
  same_step T (shifted_verdict pre) (single_line_body hashes l1) (single_line_body hashes l2).
Proof.
  intros H. unfold single_line_body.
  rewrite (shifted_stop _ _ H), (shifted_lookahead _ _ H).
  destruct (eof l2 || (lookahead l2 =? 0)) eqn:E0; [split; auto|].
  apply orb_false_iff in E0; destruct E0 as [_ E0]; apply Z.eqb_neq in E0.
  pose proof (shifted_advance _ _ H E0) as H1.
  destruct (is_newline (lookahead l2)); [split; auto|].
  destruct (negb (lookahead l2 =? ch_quote)); [exact H1|].
  pose proof (shifted_hashes (Z.to_nat hashes) _ _ H1) as [Hb Hl].
  unfold try_consume_hashes.
  destruct (try_consume_hashes_from _ (advance l1)) as [b1 m1],
           (try_consume_hashes_from _ (advance l2)) as [b2 m2]; simpl in *. subst b2.
  destruct b1; [|exact Hl]. split; [reflexivity|]. apply shifted_set; exact Hl.
Qed.

Lemma shifted_multi_line_body hashes l1 l2 :
  T l1 l2 ->
  same_step T (shifted_verdict pre) (multi_line_body hashes l1) (multi_line_body hashes l2).
Proof.
  intros H. unfold multi_line_body.
  rewrite (shifted_stop _ _ H), (shifted_lookahead _ _ H).
  destruct (eof l2 || (lookahead l2 =? 0)) eqn:E0; [split; auto|].
  apply orb_false_iff in E0; destruct E0 as [_ E0]; apply Z.eqb_neq in E0.
  pose proof (shifted_advance _ _ H E0) as H1.
  destruct (negb (lookahead l2 =? ch_quote)).
  { destruct (is_newline (lookahead l2)) eqn:N; [|exact H1].
    apply shifted_newline; assumption. }
  rewrite (shifted_lookahead _ _ H1).
  destruct (lookahead (advance l2) =? ch_quote) eqn:Q2; [|exact H1]. cbn [negb].
  assert (H2 : T (advance (advance l1)) (advance (advance l2))).
  { apply shifted_advance; [exact H1|]. apply Z.eqb_eq in Q2. rewrite Q2; discriminate. }
  rewrite (shifted_lookahead _ _ H2).
  destruct (lookahead (advance (advance l2)) =? ch_quote) eqn:Q3; [|exact H2]. cbn [negb].
  assert (H3 : T (advance (advance (advance l1))) (advance (advance (advance l2)))).
  { apply shifted_advance; [exact H2|]. apply Z.eqb_eq in Q3. rewrite Q3; discriminate. }
  pose proof (shifted_hashes (Z.to_nat hashes) _ _ H3) as [Hb Hl].
  unfold try_consume_hashes.
  destruct (try_consume_hashes_from _ (advance (advance (advance l1)))) as [b1 m1],
           (try_consume_hashes_from _ (advance (advance (advance l2)))) as [b2 m2];
    simpl in *. subst b2.
  destruct b1; [|exact Hl]. split; [reflexivity|]. apply shifted_set; exact Hl.
Qed.

Lemma shifted_count_hashes_body s1 s2 :
  shifted_count pre s1 s2 ->
  same_step (shifted_count pre) (shifted_count pre) (count_hashes_body s1) (count_hashes_body s2).
Proof.
  destruct s1 as [h1 l1], s2 as [h2 l2]. intros [Hh H]; simpl in *. subst h2.
  rewrite (shifted_lookahead _ _ H).
  destruct (lookahead l2 =? ch_hash) eqn:E; [|split; auto].
  split; [reflexivity|]. simpl.
  apply shifted_advance; [exact H|]. apply Z.eqb_eq in E. rewrite E; discriminate.
Qed.

Lemma shifted_scan_multiline_comment fuel l1 l2 :
  T l1 l2 ->
  same_option (shifted_verdict pre)
    (scan_multiline_comment fuel l1) (scan_multiline_comment fuel l2).
Proof.
  intros H. unfold scan_multiline_comment.
  rewrite (shifted_lookahead _ _ H).
  destruct (lookahead l2 =? ch_slash) eqn:E1; cbn [negb]; [|split; auto].
  assert (H1 : T (advance l1) (advance l2)).
  { apply shifted_advance; [exact H|]. apply Z.eqb_eq in E1. rewrite E1; discriminate. }
  rewrite (shifted_lookahead _ _ H1).
  destruct (lookahead (advance l2) =? ch_star) eqn:E2; cbn [negb]; [|split; auto].
  apply (loop_same comment_body comment_body (shifted_comment_state pre)).
  - apply shifted_comment_body.
  - split; [reflexivity|split; [reflexivity|]]. simpl.
    apply shifted_advance; [exact H1|]. apply Z.eqb_eq in E2. rewrite E2; discriminate.
Qed.

Lemma shifted_scan_raw_string fuel l1 l2 :
  T l1 l2 ->
  same_option (shifted_verdict pre) (scan_raw_string fuel l1) (scan_raw_string fuel l2).
Proof.
  intros H. unfold scan_raw_string.
  rewrite (shifted_lookahead _ _ H).
  destruct (negb (lookahead l2 =? ch_hash)); [split; auto|].
  pose proof (loop_same count_hashes_body count_hashes_body
                (shifted_count pre) (shifted_count pre)
                shifted_count_hashes_body fuel (0, l1) (0, l2)
                (conj eq_refl H)) as C.
  destruct (loop count_hashes_body fuel (0, l1)) as [[h1 m1]|],
           (loop count_hashes_body fuel (0, l2)) as [[h2 m2]|];
    try contradiction; [|exact I].
  destruct C as [Hh Hm]; simpl in Hh, Hm. subst h2.
  rewrite (shifted_lookahead _ _ Hm).
  destruct (lookahead m2 =? ch_quote) eqn:Q1; cbn [negb]; [|split; auto].
  assert (H1 : T (advance m1) (advance m2)).
  { apply shifted_advance; [exact Hm|]. apply Z.eqb_eq in Q1. rewrite Q1; discriminate. }
  rewrite (shifted_lookahead _ _ H1).
  destruct (lookahead (advance m2) =? ch_quote) eqn:Q2.
  2:{ apply (loop_same _ _ T); [apply shifted_single_line_body|exact H1]. }
  assert (H2 : T (advance (advance m1)) (advance (advance m2))).
  { apply shifted_advance; [exact H1|]. apply Z.eqb_eq in Q2. rewrite Q2; discriminate. }
  rewrite (shifted_lookahead _ _ H2).
  destruct (lookahead (advance (advance m2)) =? ch_quote) eqn:Q3; cbn [negb].
  2:{ pose proof (shifted_hashes (Z.to_nat h1) _ _ H2) as [Hb Hl].
      unfold try_consume_hashes.
      destruct (try_consume_hashes_from _ (advance (advance m1))) as [b1 n1],
               (try_consume_hashes_from _ (advance (advance m2))) as [b2 n2];
        simpl in *. subst b2.
      destruct b1; (split; [reflexivity|]); [apply shifted_set|]; exact Hl. }
  assert (H3 : T (advance (advance (advance m1))) (advance (advance (advance m2)))).
  { apply shifted_advance; [exact H2|]. apply Z.eqb_eq in Q3. rewrite Q3; discriminate. }
  rewrite (shifted_lookahead _ _ H3).
  destruct (is_newline (lookahead (advance (advance (advance m2))))) eqn:N; cbn [negb];
    [|split; auto].
  apply (loop_same _ _ T); [apply shifted_multi_line_body|].
  apply shifted_newline; assumption.
Qed.

Lemma shifted_scan fuel l1 l2 v :
  T l1 l2 ->
  same_option (shifted_verdict pre)
    (tree_sitter_kdl_external_scanner_scan fuel l1 v)
    (tree_sitter_kdl_external_scanner_scan fuel l2 v).
Proof.
  intros H. unfold tree_sitter_kdl_external_scanner_scan.
  rewrite (shifted_lookahead _ _ H).
  destruct (v _EOF && (lookahead l2 =? 0)).
  { split; [reflexivity|]. destruct H as (I & P & K). unfold shifted; simpl.
    rewrite I, P. repeat split; auto. }
  destruct (v RAW_STRING && (lookahead l2 =? ch_hash)).
  { apply shifted_scan_raw_string; exact H. }
  destruct (v MULTI_LINE_COMMENT && (lookahead l2 =? ch_slash)).
  { apply shifted_scan_multiline_comment; exact H. }
  split; [reflexivity|exact H].
Qed.
End Shifted.

(** A scan depends on the stream from the cursor on only: with any text
    [pre] put before the stream and the cursor moved along, it gives the
    same verdict and kind and stops at the same place of the stream. *)
Theorem scan_ignores_what_is_behind
  (fuel : nat) (pre text : list Z) (p : nat) (k : TokenType) (valid_symbols : ValidSymbols) :
  tree_sitter_kdl_external_scanner_scan fuel
    (mkLexer (pre ++ text) (length pre + p) k) valid_symbols
  = match tree_sitter_kdl_external_scanner_scan fuel (mkLexer text p k) valid_symbols with
    | Some (b, l) => Some (b, mkLexer (pre ++ input l) (length pre + pos l) (result_symbol l))
    | None => None
    end.
Proof.
  assert (H : shifted pre (mkLexer (pre ++ text) (length pre + p) k) (mkLexer text p k)).
  { unfold shifted; simpl; auto. }
  pose proof (shifted_scan pre fuel _ _ valid_symbols H) as S.
  destruct (tree_sitter_kdl_external_scanner_scan fuel (mkLexer (pre ++ text) _ k) _)
    as [[b1 l1]|],
    (tree_sitter_kdl_external_scanner_scan fuel (mkLexer text p k) _) as [[b2 l2]|];
    simpl in S; try contradiction; [|reflexivity].
  destruct S as [Hb (I & P & K)]; simpl in *. subst b2.
  destruct l1 as [i1 p1 k1]; simpl in *. subst. reflexivity.
Qed.

(** ** Quotes inside a raw string *)

Lemma hd_app_quote (b t : list Z) :
  hd ch_quote b <> ch_hash -> hd 0 (b ++ ch_quote :: t) <> ch_hash.
Proof. destruct b as [|c b]; simpl; [discriminate|auto]. Qed.

(** A quote followed by fewer number signs than opened the string does not
    close it: the body goes on after that shorter run, and the token ends at
    the first quote followed by as many number signs as opened it. *)
Theorem single_line_inner_quote_is_body
  (N m : nat) (b1 b2 rest : list Z) (fuel : nat) (valid_symbols : ValidSymbols) :
  (1 <= N)%nat ->
  valid_symbols RAW_STRING = true ->
  (m < N)%nat ->
  b1 <> [] ->
  forallb body_char b1 = true ->
  forallb body_char b2 = true ->
  hd ch_quote b2 <> ch_hash ->
  addressable (single_line_text_with_quote N b1 m b2 rest) ->
  (length (single_line_text_with_quote N b1 m b2 rest) < fuel)%nat ->
  tree_sitter_kdl_external_scanner_scan fuel
    (start (single_line_text_with_quote N b1 m b2 rest)) valid_symbols
  = Some (true, mkLexer (single_line_text_with_quote N b1 m b2 rest)
                        (N + 1 + length b1 + 1 + m + length b2 + 1 + N) RAW_STRING).
Proof.
  intros HN V Hm Hne Hok1 Hok2 Hhd Haddr Hfuel.
  set (text := single_line_text_with_quote N b1 m b2 rest) in *.
  unfold addressable in Haddr.
  assert (Hlen : (N <= length text)%nat).
  { unfold text, single_line_text_with_quote. rewrite length_app, repeat_length. lia. }
  destruct b1 as [|c b1']; [congruence|]. set (b1 := c :: b1') in *.
  assert (Hc : c <> ch_quote).
  { simpl in Hok1. apply andb_true_iff in Hok1. apply (body_char_spec c), Hok1. }
  set (tail2 := ch_quote :: repeat ch_hash N ++ rest).
  set (tail1 := ch_quote :: repeat ch_hash m ++ (b2 ++ tail2)).
  assert (A : ahead (start text) = repeat ch_hash N ++ ch_quote :: c :: (b1' ++ tail1)).
  { reflexivity. }
  assert (L : lookahead (start text) = ch_hash).
  { destruct N as [|N']; [lia|]. reflexivity. }
  rewrite scan_dispatch_raw by assumption.
  rewrite (scan_raw_string_to_single_line N _ c _ fuel HN ltac:(lia) ltac:(lia) A Hc).
  rewrite skip_start.
  assert (A1 : ahead (mkLexer text (S N) _EOF) = b1 ++ tail1).
  { pose proof (ahead_skip_app (repeat ch_hash N ++ [ch_quote]) (start text) (b1 ++ tail1)) as P.
    rewrite length_app, repeat_length, skip_start in P. cbn [length] in P.
    replace (N + 1)%nat with (S N) in P by lia. apply P.
    rewrite ahead_start, <- app_assoc. reflexivity. }
  pose proof (single_line_run_body (Z.of_nat N) b1 _ _ Hok1 A1) as R1.
  pose proof (ahead_skip_app b1 _ _ A1) as A2. rewrite skip_mk in R1, A2.
  pose proof (single_line_body_absorb N _ m (b2 ++ tail2) A2 (hd_app_quote _ _ Hhd) Hm) as St.
  rewrite skip_mk in St.
  pose proof (ahead_skip_app (ch_quote :: repeat ch_hash m) _ _ A2) as A3.
  cbn [length] in A3. rewrite repeat_length, skip_mk in A3.
  pose proof (single_line_run_body (Z.of_nat N) b2 _ _ Hok2 A3) as R2.
  pose proof (ahead_skip_app b2 _ _ A3) as A4. rewrite skip_mk in R2, A4.
  pose proof (run_app _ _ _ _ _ _ R1 (run_step _ _ _ _ _ St R2)) as R.
  apply (loop_from_run _ _ _ _ _ fuel R).
  - rewrite (single_line_body_close N _ N rest A4 (le_n _)).
    do 2 f_equal. unfold set_result_symbol, skip; cbn [input pos]. f_equal. lia.
  - apply single_line_total. unfold remaining; cbn [input pos]. lia.
Qed.

(** [##], a quote, [a], a quote and [#], [b], a quote and [##]. *)
Lemma single_line_inner_quote_is_body_witness :
  tree_sitter_kdl_external_scanner_scan 11
    (start (single_line_text_with_quote 2 [97] 1 [98] [])) (only RAW_STRING)
  = Some (true, mkLexer (single_line_text_with_quote 2 [97] 1 [98] []) 10 RAW_STRING).
Proof.
  apply (single_line_inner_quote_is_body 2 1 [97] [98] [] 11 (only RAW_STRING)).
  - lia.
  - reflexivity.
  - lia.
  - discriminate.
  - reflexivity.
  - reflexivity.
  - discriminate.
  - unfold addressable; simpl; lia.
  - simpl; lia.
Defined.

(** Three quotes followed by fewer number signs than opened the string do
    not close a multi-line raw string: the body goes on after that shorter
    run, and the token ends at the three quotes followed by as many number
    signs as opened it. *)
Theorem multi_line_inner_quotes_are_body
  (N m : nat) (nl : Z) (b1 b2 rest : list Z) (fuel : nat) (valid_symbols : ValidSymbols) :
  (1 <= N)%nat ->
  valid_symbols RAW_STRING = true ->
  (m < N)%nat ->
  is_newline nl = true ->
  plain_body b1 = true ->
  plain_body b2 = true ->
  hd ch_quote b2 <> ch_hash ->
  addressable (multi_line_text_with_quotes N nl b1 m b2 rest) ->
  (length (multi_line_text_with_quotes N nl b1 m b2 rest) < fuel)%nat ->
  tree_sitter_kdl_external_scanner_scan fuel
    (start (multi_line_text_with_quotes N nl b1 m b2 rest)) valid_symbols
  = Some (true, mkLexer (multi_line_text_with_quotes N nl b1 m b2 rest)
                        (N + 3 + 1 + length b1 + 3 + m + length b2 + 3 + N) RAW_STRING).
Proof.
  intros HN V Hm Hnl Hok1 Hok2 Hhd Haddr Hfuel.
  set (text := multi_line_text_with_quotes N nl b1 m b2 rest) in *.
  unfold addressable in Haddr.
  assert (Hlen : (N <= length text)%nat).
  { unfold text, multi_line_text_with_quotes. rewrite length_app, repeat_length. lia. }
  set (tail2 := three_quotes ++ repeat ch_hash N ++ rest).
  set (tail1 := three_quotes ++ repeat ch_hash m ++ (b2 ++ tail2)).
  assert (A : ahead (start text) = repeat ch_hash N ++ three_quotes ++ (nl :: b1 ++ tail1)).
  { reflexivity. }
  assert (L : lookahead (start text) = ch_hash).
  { destruct N as [|N']; [lia|]. reflexivity. }
  rewrite scan_dispatch_raw by assumption.
  rewrite (scan_raw_string_three_quotes N _ _ fuel HN ltac:(lia) ltac:(lia) A).
  cbn [hd]. rewrite Hnl. cbn [negb]. rewrite skip_start.
  assert (A1 : ahead (mkLexer text (N + 3) _EOF) = nl :: b1 ++ tail1).
  { pose proof (ahead_skip_app (repeat ch_hash N ++ three_quotes) (start text)
                  (nl :: b1 ++ tail1)) as P.
    rewrite length_app, repeat_length, skip_start in P. apply P.
    rewrite A, <- app_assoc. reflexivity. }
  assert (B : exists b' p0,
             plain_body b' = true /\ (p0 + length b' = N + 3 + 1 + length b1)%nat /\
             consume_newline (mkLexer text (N + 3) _EOF) = mkLexer text p0 _EOF /\
             ahead (mkLexer text p0 _EOF) = b' ++ tail1).
  { rewrite (consume_newline_ahead _ _ _ A1).
    destruct ((nl =? ch_cr) && (hd 0 (b1 ++ tail1) =? ch_lf)) eqn:E.
    - eqb_hyps. destruct b1 as [|d b']; [discriminate|].
      exists b', (N + 3 + 2)%nat. split; [apply (plain_body_tail _ _ Hok1)|].
      split; [simpl; lia|]. split; [rewrite skip_mk; f_equal; lia|].
      pose proof (ahead_skip_app [nl; d] _ _ A1) as P. rewrite skip_mk in P.
      replace (N + 3 + 2)%nat with (length [nl; d] + (N + 3))%nat by (simpl; lia). exact P.
    - exists b1, (N + 3 + 1)%nat. split; [exact Hok1|]. split; [lia|].
      split; [rewrite skip_mk; f_equal; lia|].
      pose proof (ahead_skip_app [nl] _ _ A1) as P. rewrite skip_mk in P.
      replace (N + 3 + 1)%nat with (length [nl] + (N + 3))%nat by (simpl; lia). exact P. }
  destruct B as (b' & p0 & Hok' & Hp0 & -> & A2).
  destruct (multi_line_run_body (Z.of_nat N) (length b') b' _ tail1 (le_n _) Hok' A2 eq_refl)
    as [k1 R1].
  pose proof (ahead_skip_app b' _ _ A2) as A3. rewrite skip_mk in R1, A3.
  pose proof (multi_line_body_absorb N _ m (b2 ++ tail2) A3 (hd_app_quote _ _ Hhd) Hm) as St.
  rewrite skip_mk in St.
  assert (A4 : ahead (mkLexer text (3 + m + (length b' + p0)) _EOF) = b2 ++ tail2).
  { pose proof (ahead_skip_app (three_quotes ++ repeat ch_hash m)
                  (mkLexer text (length b' + p0) _EOF) (b2 ++ tail2)) as P.
    rewrite length_app, repeat_length, skip_mk in P. apply P.
    rewrite A3. unfold tail1. rewrite <- app_assoc. reflexivity. }
  destruct (multi_line_run_body (Z.of_nat N) (length b2) b2 _ tail2 (le_n _) Hok2 A4 eq_refl)
    as [k2 R2].
  pose proof (ahead_skip_app b2 _ _ A4) as A5. rewrite skip_mk in R2, A5.
  pose proof (run_app _ _ _ _ _ _ R1 (run_step _ _ _ _ _ St R2)) as R.
  apply (loop_from_run _ _ _ _ _ fuel R).
  - rewrite (multi_line_body_close N _ N rest A5 (le_n _)).
    do 2 f_equal. unfold set_result_symbol, skip; cbn [input pos]. f_equal. lia.
  - apply multi_line_total. unfold remaining; cbn [input pos]. lia.
Qed.

(** [##], three quotes, a line feed, [a], three quotes and [#], a line
    feed, three quotes and [##]. *)
Lemma multi_line_inner_quotes_are_body_witness :
  tree_sitter_kdl_external_scanner_scan 18
    (start (multi_line_text_with_quotes 2 10 [97] 1 [10] [])) (only RAW_STRING)
  = Some (true, mkLexer (multi_line_text_with_quotes 2 10 [97] 1 [10] []) 17 RAW_STRING).
Proof.
  apply (multi_line_inner_quotes_are_body 2 1 10 [97] [10] [] 18 (only RAW_STRING)).
  - lia.
  - reflexivity.
  - lia.
  - reflexivity.
  - reflexivity.
  - reflexivity.
  - discriminate.
  - unfold addressable; simpl; lia.
  - simpl; lia.
Defined.
